(** * Access-control core of the FastAPI boilerplate backend

    A shallow embedding of [app/models/auth/functions.py],
    [app/models/post/functions.py], [app/models/user/functions.py] and the
    dependency aliases of [app/models/auth/dependencies.py], with the
    properties of the specification stated and proved over it.

    The coroutines of the source run one request sequentially over a shared
    session, a background task queue and the rate limiter's store.  They are
    embedded in an error-and-state monad over a [World] holding these
    pieces: [await e] is a bind, [raise e] leaves the world as it is at the
    point of the raise. *)

From stdpp Require Import base option list strings gmap.
From Stdlib Require Import ZArith NArith Ascii.

Local Open Scope Z_scope.

(** ** Exceptions ([app.functions.exceptions]) *)

(** The stable error kinds of the subsystem. *)
Inductive error_kind :=
  | Unauthorized
  | Forbidden
  | Conflict
  | NotFound
  | RateLimited.

(** What a request can raise.  [unauthorized_basic], [forbidden] and
    [conflict] are the constructors the source calls; [HTTPError k] stands
    for the failure of a collaborator of which only the kind is known;
    [ValueError] is what [Role(i)] raises on a string that is no member. *)
Inductive exception :=
  | unauthorized_basic
  | forbidden (msg : string)
  | conflict (msg : string)
  | HTTPError (k : error_kind)
  | ValueError (v : string).

Definition kind_of (e : exception) : option error_kind :=
  match e with
  | unauthorized_basic => Some Unauthorized
  | forbidden _ => Some Forbidden
  | conflict _ => Some Conflict
  | HTTPError k => Some k
  | ValueError _ => None
  end.

#[global] Instance error_kind_eq_dec : EqDecision error_kind.
Proof. solve_decision. Defined.

#[global] Instance exception_eq_dec : EqDecision exception.
Proof. solve_decision. Defined.

Inductive result (A : Type) :=
  | Ok (a : A)
  | Raise (e : exception).
Arguments Ok {A} a.
Arguments Raise {A} e.

Definition is_ok {A} (r : result A) : bool :=
  match r with Ok _ => true | Raise _ => false end.

(** [raises r k]: [r] is a failure of kind [k]. *)
Definition raises {A} (r : result A) (k : error_kind) : Prop :=
  match r with
  | Ok _ => False
  | Raise e => kind_of e = Some k
  end.

(** ** Identifiers *)

(** A [uuid.UUID] is its 128-bit integer value. *)
Definition UUID := N.

Definition hex_digit (d : N) : ascii :=
  match d with
  | 0 => "0" | 1 => "1" | 2 => "2" | 3 => "3" | 4 => "4" | 5 => "5"
  | 6 => "6" | 7 => "7" | 8 => "8" | 9 => "9" | 10 => "a" | 11 => "b"
  | 12 => "c" | 13 => "d" | 14 => "e" | _ => "f"
  end%N%char.

Fixpoint hex_digits (k : nat) (n : N) (acc : string) : string :=
  match k with
  | O => acc
  | S k' => hex_digits k' (n / 16)%N (String (hex_digit (n mod 16)%N) acc)
  end.

(** [UUID.hex]: the 32 lower-case hexadecimal digits of the value. *)
Definition UUID_hex (u : UUID) : string := hex_digits 32 u "".

(** ** Roles ([app.models.auth.role]) *)

Module Role.

(** Modelled from the spec: the [Role] enumeration, which is not among
    the sources.  The members are the ones the specification lists (the
    sources use [Role.ADMIN] and [Role.RESET]); a member's value is its
    name in lower case. *)
Inductive t := ADMIN | USER | RESET.

#[global] Instance eq_dec : EqDecision t.
Proof. solve_decision. Defined.

Definition members : list t := [ADMIN; USER; RESET].

Definition value (r : t) : string :=
  match r with
  | ADMIN => "admin"
  | USER => "user"
  | RESET => "reset"
  end.

(** [Role(i)]: the member whose value is [i]; [ValueError] when there is
    none. *)
Definition call (i : string) : result t :=
  match List.find (fun r => String.eqb (value r) i) members with
  | Some r => Ok r
  | None => Raise (ValueError i)
  end.

End Role.

(** ** Entities ([app.models.user], [app.models.post]) *)

Module User.

(** Modelled from the spec: the [User] entity, which is not among the
    sources.  Its attributes are the ones the sources read or pass to the
    constructor; [password] holds the stored hash. *)
Record t := Build {
  id : UUID;
  name : string;
  email : string;
  password : string;
  verified : bool;
  scope : list Role.t
}.

#[global] Instance eq_dec : EqDecision t.
Proof. solve_decision. Defined.

(** The relationships a query can load eagerly. *)
Inductive relationship := posts | tags.

End User.

Module Post.

(** Modelled from the spec: the [Post] entity, which is not among the
    sources: a resource owned by exactly one subject ([user_id]). *)
Record t := Build {
  id : UUID;
  user_id : UUID;
  content : string
}.

#[global] Instance eq_dec : EqDecision t.
Proof. solve_decision. Defined.

Inductive relationship := user | tags.

End Post.

(** ** Schemas ([app.models.auth.schemas], [app.models.user.schemas]) *)

(** Modelled from the spec: the claims a token carries on the wire,
    [{subject_id, scopes, expiry}]. *)
Record Claims := {
  sub : UUID;
  scopes : list Role.t;
  exp : Z
}.

#[global] Instance Claims_eq_dec : EqDecision Claims.
Proof. solve_decision. Defined.

(** Modelled from the spec: the token string, "opaque signed string".  What
    the bearer sends either parses into claims and a signature or it does
    not. *)
Inductive token_str :=
  | Jws (claims : Claims) (signature : string)
  | Malformed (s : string).

Module TokenEncode.
(** Modelled from the spec: the schema [Token.encode] returns. *)
Record t := Build { access_token : token_str; token_type : string }.
End TokenEncode.

Module TokenDecode.
(** The decoded payload a guard yields; the sources read [id] and
    [scope]. *)
Record t := Build { id : UUID; scope : list Role.t }.
End TokenDecode.

Module Token.
(** [Token(id=..., scope=...)] as [Authenticate.to_token] builds it. *)
Record t := Build { id : UUID; scope : list Role.t }.
End Token.

Module UserIn.
(** Modelled from the spec: the registration payload; [create_user]
    reads [email] and hands every field to the [User] constructor. *)
Record t := Build {
  name : string;
  email : string;
  password : string;
  verified : bool;
  scope : list Role.t
}.
End UserIn.

Module UserUpdate.
(** Modelled from the spec: the update payload.  Every field is
    optional; a field the request does not provide is [None]. *)
Record t := Build {
  name : option string;
  email : option string;
  password : option string;
  verified : option bool;
  scope : option (list Role.t)
}.
End UserUpdate.

(** One keyword argument of the [User] constructor or of [user.update]. *)
Inductive kwarg :=
  | kw_name (v : string)
  | kw_email (v : string)
  | kw_password (v : string)
  | kw_verified (v : bool)
  | kw_scope (v : list Role.t).

(** [OAuth2PasswordRequestForm]: the credentials of the form, and the
    scopes the client asks for. *)
Record OAuth2PasswordRequestForm := {
  username : string;
  form_password : string;
  form_scopes : list string
}.

(** [app.config.config].  The sources read [ADMIN_EMAIL] and
    [ADMIN_PASSWORD].  Modelled from the spec: the settings of the
    collaborators that are not among the sources, which are the signing
    key, the lifetime of a token and the threshold and window of the
    limiter, both times in seconds. *)
Record Config := {
  ADMIN_EMAIL : string;
  ADMIN_PASSWORD : string;
  SECRET_KEY : string;
  ACCESS_TOKEN_EXPIRE : Z;
  RATE_LIMIT : nat;
  RATE_WINDOW : Z
}.

(** ** The world of a request *)

(** A task handed to [BackgroundTasks]. *)
Inductive task :=
  | send_reset_password (email : string).

(** Calls to the stateful collaborators, in the order they happen. *)
Inductive event :=
  | Saved (u : User.t)
  | Updated (u : User.t)
  | Deleted (u : User.t)
  | ResetPasswordRequested (email : string)
  | RateLimiterCalled (key : string).

#[global] Instance task_eq_dec : EqDecision task.
Proof. solve_decision. Defined.

#[global] Instance event_eq_dec : EqDecision event.
Proof. solve_decision. Defined.

Record World := {
  users : list User.t;               (* the user table of the session *)
  posts : list Post.t;               (* the post table of the session *)
  bt : list task;                    (* the request's BackgroundTasks *)
  limiter : gmap string (list Z);    (* call timestamps per key *)
  now : Z;                           (* the clock, in seconds *)
  draws : nat;                       (* identifiers drawn so far *)
  log : list event
}.

Definition with_users (us : list User.t) (w : World) : World :=
  {| users := us; posts := posts w; bt := bt w; limiter := limiter w;
     now := now w; draws := draws w; log := log w |}.

Definition with_bt (q : list task) (w : World) : World :=
  {| users := users w; posts := posts w; bt := q; limiter := limiter w;
     now := now w; draws := draws w; log := log w |}.

Definition with_limiter (m : gmap string (list Z)) (w : World) : World :=
  {| users := users w; posts := posts w; bt := bt w; limiter := m;
     now := now w; draws := draws w; log := log w |}.

Definition with_draws (n : nat) (w : World) : World :=
  {| users := users w; posts := posts w; bt := bt w; limiter := limiter w;
     now := now w; draws := n; log := log w |}.

Definition emit (e : event) (w : World) : World :=
  {| users := users w; posts := posts w; bt := bt w; limiter := limiter w;
     now := now w; draws := draws w; log := log w ++ [e] |}.

(** The monad of a request: a result and the world it leaves. *)
Definition M (A : Type) : Type := World → result A * World.

#[global] Instance M_ret : MRet M := λ A a w, (Ok a, w).

#[global] Instance M_bind : MBind M := λ A B f m w,
  match m w with
  | (Ok a, w') => f a w'
  | (Raise e, w') => (Raise e, w')
  end.

Definition raise {A} (e : exception) : M A := λ w, (Raise e, w).

Definition lift {A} (r : result A) : M A := λ w, (r, w).

Definition gets {A} (f : World → A) : M A := λ w, (Ok (f w), w).

Definition modify (f : World → World) : M unit := λ w, (Ok tt, f w).

(** [[f(i) for i in l]] for an [f] that can raise. *)
Fixpoint traverse {A B} (f : A → result B) (l : list A) : result (list B) :=
  match l with
  | [] => Ok []
  | x :: l' =>
      match f x with
      | Raise e => Raise e
      | Ok y =>
          match traverse f l' with
          | Raise e => Raise e
          | Ok ys => Ok (y :: ys)
          end
      end
  end.

(** The configuration and the primitives the application is linked
    against, which the specification leaves to external collaborators: the
    keyed signature of the token library, the password hasher and its
    verifier, and the identifier generator, as the sequence of the
    identifiers it yields.  Nothing is assumed of them. *)
Class Env := {
  config : Config;
  sign : string → Claims → string;
  get_password_hash : string → string;
  verify_password : string → string → bool;
  uuid4 : nat → UUID
}.

Section App.

Context {env : Env}.

(** ** Persistence collaborator *)

(** Modelled from the spec: [find(filter, relationships?, raise_on_miss?)
    -> Entity | None], over a table of the session.  A miss is [None]
    unless [raise_] is set, and then it is the not-found failure.  The
    relationships only choose what is loaded along with the entity. *)
Definition find {E R} (table : World → list E) (filter : E → bool)
    (raise_ : bool) (relationships : option (list R)) : M (option E) :=
  λ w,
    match List.find filter (table w) with
    | Some e => (Ok (Some e), w)
    | None => if raise_ then (Raise (HTTPError NotFound), w) else (Ok None, w)
    end.

(** Modelled from the spec: [get(id, relationships?) -> Entity |
    fail(not found)]. *)
Definition User_get (id : UUID) (relationships : option (list User.relationship))
    : M User.t :=
  λ w,
    match List.find (λ u, bool_decide (User.id u = id)) (users w) with
    | Some u => (Ok u, w)
    | None => (Raise (HTTPError NotFound), w)
    end.

(** Modelled from the spec: [all() -> sequence]. *)
Definition User_all : M (list User.t) := gets users.

(** Modelled from the spec: assigning one attribute of a [User], which is
    not among the sources; a password is stored as its hash. *)
Definition setattr (u : User.t) (kw : kwarg) : User.t :=
  match kw with
  | kw_name v =>
      User.Build (User.id u) v (User.email u) (User.password u)
        (User.verified u) (User.scope u)
  | kw_email v =>
      User.Build (User.id u) (User.name u) v (User.password u)
        (User.verified u) (User.scope u)
  | kw_password v =>
      User.Build (User.id u) (User.name u) (User.email u)
        (get_password_hash v) (User.verified u) (User.scope u)
  | kw_verified v =>
      User.Build (User.id u) (User.name u) (User.email u) (User.password u)
        v (User.scope u)
  | kw_scope v =>
      User.Build (User.id u) (User.name u) (User.email u) (User.password u)
        (User.verified u) v
  end.

(** Modelled from the spec: the [User] constructor.  The identifier is
    drawn from the generator, the password is stored hashed. *)
Definition User_new (name email password : string) (verified : bool)
    (scope : list Role.t) : M User.t :=
  λ w,
    (Ok (User.Build (uuid4 (draws w)) name email
           (get_password_hash password) verified scope),
     with_draws (S (draws w)) w).

(** Modelled from the spec: [save(entity) -> Entity]: the entity becomes
    a row of its table. *)
Definition User_save (u : User.t)
    (relationships : option (list User.relationship)) : M User.t :=
  λ w, (Ok u, emit (Saved u) (with_users (users w ++ [u]) w)).

(** Modelled from the spec: [update(entity, partial_fields) -> Entity]:
    each field given is assigned, in order, and the row of the entity is
    replaced. *)
Definition User_update (u : User.t) (kwargs : list kwarg) : M User.t :=
  λ w,
    let u' := foldl setattr u kwargs in
    (Ok u',
     emit (Updated u')
       (with_users
          (map (λ r, if bool_decide (User.id r = User.id u) then u' else r)
             (users w)) w)).

(** Modelled from the spec: [delete(entity) -> None]. *)
Definition User_delete (u : User.t) : M unit :=
  λ w,
    (Ok tt,
     emit (Deleted u)
       (with_users
          (List.filter (λ r, negb (bool_decide (User.id r = User.id u)))
             (users w)) w)).

(** Modelled from the spec: [user.check_password(plain)] compares the
    password against the stored hash. *)
Definition check_password (u : User.t) (plain : string) : bool :=
  verify_password plain (User.password u).

(** ** Email collaborator *)

(** Modelled from the spec: [request_reset_password] of
    [app.api.v1.user], which is not among the sources: it hands
    [send_reset_password(email)] to the background tasks, to run after
    the response. *)
Definition request_reset_password (email : string) : M unit :=
  modify (λ w, emit (ResetPasswordRequested email)
                 (with_bt (bt w ++ [send_reset_password email]) w)).

(** ** Rate limiter ([app.functions.limiter]) *)

(** Modelled from the spec: the rolling window of the limiter, which is not
    among the sources: the calls of a key that still lie in the window
    ending at [t]. *)
Definition recent (t : Z) (calls : list Z) : list Z :=
  List.filter (λ c, t - c <? RATE_WINDOW config) calls.

(** Modelled from the spec: the keyed store of the limiter: the calls of
    [key] it counts at the clock of [w]. *)
Definition counted (key : string) (w : World) : list Z :=
  recent (now w) (default [] (limiter w !! key)).

(** Modelled from the spec: [check(subject_key)] tracks call timestamps
    keyed by subject identifier and fails with the too-many-requests kind
    once the configured threshold is exceeded within the rolling window:
    with threshold [N], a call that finds [N] calls of its key in the
    window is refused; a call that is let through is recorded. *)
Definition rate_limiter (key : string) : M unit :=
  λ w,
    let calls := counted key w in
    let w := emit (RateLimiterCalled key) w in
    if bool_decide (RATE_LIMIT config ≤ length calls)%nat
    then (Raise (HTTPError RateLimited), w)
    else (Ok tt, with_limiter (<[key := now w :: calls]> (limiter w)) w).

(** ** Token codec ([app.models.auth.token]) *)

(** Modelled from the spec: the signature check of [Token.decode], which
    is not among the sources: the signature is recomputed over the claims
    with the configured key and compared. *)
Definition verify_signature (t : token_str) : option Claims :=
  match t with
  | Jws c sg =>
      if String.eqb (sign (SECRET_KEY config) c) sg then Some c else None
  | Malformed _ => None
  end.

(** Modelled from the spec: [encode(subject_id, scopes) -> token_string]
    produces a signed, time-bounded credential. *)
Definition Token_encode (self : Token.t) : M TokenEncode.t :=
  λ w,
    let c := {| sub := Token.id self; scopes := Token.scope self;
                exp := now w + ACCESS_TOKEN_EXPIRE config |} in
    (Ok (TokenEncode.Build (Jws c (sign (SECRET_KEY config) c)) "bearer"), w).

(** Modelled from the spec: the set-intersection test of [Token.decode]:
    whether some required scope is among the granted ones. *)
Definition intersects (required granted : list Role.t) : bool :=
  existsb (λ r, bool_decide (r ∈ granted)) required.

(** Modelled from the spec: [decode(token_string, required_scopes) ->
    {subject_id, scopes}] verifies signature and expiration; then
    verifies the decoded scope set intersects [required_scopes] (if
    non-empty).  It fails with the unauthorized kind if the
    signature/expiry check fails, and with the forbidden kind if the
    scope intersection is empty while scopes were required. *)
Definition Token_decode (token : token_str) (scope : list Role.t)
    : M TokenDecode.t :=
  λ w,
    match verify_signature token with
    | None => (Raise (HTTPError Unauthorized), w)
    | Some c =>
        if exp c <? now w then (Raise (HTTPError Unauthorized), w)
        else
          match scope with
          | _ :: _ =>
              if intersects scope (scopes c)
              then (Ok (TokenDecode.Build (sub c) (scopes c)), w)
              else (Raise (HTTPError Forbidden), w)
          | [] => (Ok (TokenDecode.Build (sub c) (scopes c)), w)
          end
    end.

(** ** [app/models/auth/functions.py] *)

Definition authorize (token : token_str) (security_scopes : list string)
    : M TokenDecode.t :=
  scope ← lift (traverse Role.call security_scopes);
  decoded_token ← Token_decode token scope;
  mret decoded_token.

Definition authorize_limited (token : TokenDecode.t) : M TokenDecode.t :=
  rate_limiter (UUID_hex (TokenDecode.id token));;
  mret token.

Record Authenticate := {
  relationships : option (list User.relationship)
}.

Definition Authenticate_init (load_relationships : bool) : Authenticate :=
  {| relationships :=
       if load_relationships then Some [User.posts; User.tags] else None |}.

Definition Authenticate_call (self : Authenticate)
    (credentials : OAuth2PasswordRequestForm) : M User.t :=
  user ← find users (λ u, String.eqb (User.email u) (username credentials))
            false (relationships self);
  match user with
  | None => raise unauthorized_basic
  | Some user =>
      if negb (check_password user (form_password credentials))
      then raise unauthorized_basic
      else if negb (User.verified user)
      then raise (forbidden "User not verified. Request reset password.")
      else mret user
  end.

Definition Authenticate_from_token (self : Authenticate)
    (token : TokenDecode.t) : M User.t :=
  user ← User_get (TokenDecode.id token) (relationships self);
  mret user.

Definition Authenticate_to_token (credentials : OAuth2PasswordRequestForm)
    : M TokenEncode.t :=
  user ← Authenticate_call (Authenticate_init false) credentials;
  Token_encode (Token.Build (User.id user) (User.scope user)).

(** ** [app/models/auth/dependencies.py] *)

(** [Depends(authorize)]: the guard runs on the bearer token of the
    request, with the scopes the route declares. *)
Definition authorizeDep (token : token_str) (security_scopes : list string)
    : M TokenDecode.t :=
  authorize token security_scopes.

(** [Depends(authorize_limited)]: the parameter of [authorize_limited] is
    itself [Depends(authorize)], which is resolved first; when it raises,
    [authorize_limited] is not called. *)
Definition authorizeLimitDep (token : token_str)
    (security_scopes : list string) : M TokenDecode.t :=
  decoded ← authorize token security_scopes;
  authorize_limited decoded.

Definition authorizeLoadDep (token : token_str)
    (security_scopes : list string) : M User.t :=
  decoded ← authorize token security_scopes;
  Authenticate_from_token (Authenticate_init false) decoded.

Definition authenticateTokenDep := Authenticate_to_token.

(** ** [app/models/post/functions.py] *)

(** The filter [id=post_id, user_id=owner] of the two loaders. *)
Definition owned_filter (post_id owner : UUID) (p : Post.t) : bool :=
  bool_decide (Post.id p = post_id) && bool_decide (Post.user_id p = owner).

Definition load_post (post_id : UUID) (token : TokenDecode.t)
    : M (option Post.t) :=
  find posts (owned_filter post_id (TokenDecode.id token))
    true (Some [Post.user; Post.tags]).

Definition load_post_limited (post_id : UUID) (token : TokenDecode.t)
    : M (option Post.t) :=
  find posts (owned_filter post_id (TokenDecode.id token))
    true (Some [Post.user; Post.tags]).

(** The two loaders as a route reaches them: behind their guards. *)
Definition load_post_route (post_id : UUID) (bearer : token_str)
    (security_scopes : list string) : M (option Post.t) :=
  token ← authorizeDep bearer security_scopes;
  load_post post_id token.

Definition load_post_limited_route (post_id : UUID) (bearer : token_str)
    (security_scopes : list string) : M (option Post.t) :=
  token ← authorizeLimitDep bearer security_scopes;
  load_post_limited post_id token.

(** ** [app/models/user/functions.py] *)

Definition create_admin_user : M User.t :=
  admin ← find users (λ u, String.eqb (User.email u) (ADMIN_EMAIL config))
             false (@None (list User.relationship));
  match admin with
  | None =>
      u ← User_new "admin" (ADMIN_EMAIL config) (ADMIN_PASSWORD config)
            true [Role.ADMIN];
      User_save u None
  | Some admin => mret admin
  end.

Definition get_user (id : UUID) : M User.t :=
  User_get id (Some [User.posts; User.tags]).

Definition create_user (user_in : UserIn.t) (send_email : bool) : M User.t :=
  existing ← find users (λ u, String.eqb (User.email u) (UserIn.email user_in))
                false (@None (list User.relationship));
  match existing with
  | Some _ => raise (conflict "User already exists")
  | None =>
      u ← User_new (UserIn.name user_in) (UserIn.email user_in)
            (UserIn.password user_in) (UserIn.verified user_in)
            (UserIn.scope user_in);
      user ← User_save u (Some [User.posts; User.tags]);
      (if send_email then request_reset_password (User.email user)
       else mret tt);;
      mret user
  end.

(** [send_email: bool = True]: what the caller leaves out is [True]. *)
Definition create_user_default (user_in : UserIn.t)
    (send_email : option bool) : M User.t :=
  create_user user_in (default true send_email).

Definition get_users : M (list User.t) := User_all.

Definition delete_user (user : User.t) : M unit :=
  User_delete user.

(** [delete_user] as the route reaches it: [user] is [Depends(get_user)]. *)
Definition delete_user_route (id : UUID) : M unit :=
  user ← get_user id;
  delete_user user.

(** [model_dump(exclude_none=True)]: the fields that are not [None], in
    the order of the schema. *)
Definition model_dump_exclude_none (u : UserUpdate.t) : list kwarg :=
  option_list (kw_name <$> UserUpdate.name u)
  ++ option_list (kw_email <$> UserUpdate.email u)
  ++ option_list (kw_password <$> UserUpdate.password u)
  ++ option_list (kw_verified <$> UserUpdate.verified u)
  ++ option_list (kw_scope <$> UserUpdate.scope u).

Definition update_user (user : User.t) (user_update : UserUpdate.t)
    : M User.t :=
  User_update user (model_dump_exclude_none user_update).

(** [update_user] as the route reaches it: [user] is [Depends(get_user)]. *)
Definition update_user_route (id : UUID) (user_update : UserUpdate.t)
    : M User.t :=
  user ← get_user id;
  update_user user user_update.

End App.

(** ** The remaining dependencies and the admin routes *)

Section Routes.

Context {env : Env}.

(** *** [app/models/auth/dependencies.py], the other aliases *)

Definition authorizeLoadRelationshipsDep (token : token_str)
    (security_scopes : list string) : M User.t :=
  decoded ← authorize token security_scopes;
  Authenticate_from_token (Authenticate_init true) decoded.

Definition authenticateDep (credentials : OAuth2PasswordRequestForm)
    : M User.t :=
  Authenticate_call (Authenticate_init false) credentials.

Definition authenticateRelationshipsDep
    (credentials : OAuth2PasswordRequestForm) : M User.t :=
  Authenticate_call (Authenticate_init true) credentials.

(** [Security(Authenticate().from_token, scopes=[Role.RESET])]: the scope
    the alias declares reaches [authorize] through [from_token]'s own
    [Depends(authorize)]. *)
Definition resetLoadDep (token : token_str) : M User.t :=
  decoded ← authorize token [Role.value Role.RESET];
  Authenticate_from_token (Authenticate_init false) decoded.

(** *** [app/api/v1/admin.py] *)

(** [dependencies=[Security(authorize, scopes=[Role.ADMIN])]]: the guard of
    the router, which runs before the dependencies of each of its routes. *)
Definition admin_guard (bearer : token_str) : M TokenDecode.t :=
  authorize bearer [Role.value Role.ADMIN].

(** [POST /admin/user]: [user: userCreateDep]. *)
Definition admin_create_user (bearer : token_str) (user_in : UserIn.t)
    (send_email : option bool) : M User.t :=
  admin_guard bearer;;
  user ← create_user_default user_in send_email;
  mret user.

(** [GET /admin/user]: [users: usersGetDep]. *)
Definition admin_get_users (bearer : token_str) : M (list User.t) :=
  admin_guard bearer;;
  all ← get_users;
  mret all.

(** [GET /admin/user/{id}]: [user: userGetDep]. *)
Definition admin_get_user (bearer : token_str) (id : UUID) : M User.t :=
  admin_guard bearer;;
  user ← get_user id;
  mret user.

(** [DELETE /admin/user/{id}]: [_: userDeleteDep]. *)
Definition admin_delete_user (bearer : token_str) (id : UUID) : M unit :=
  admin_guard bearer;;
  delete_user_route id.

(** [PUT /admin/user/{id}]: [user: userUpdateDep]. *)
Definition admin_update_user (bearer : token_str) (id : UUID)
    (user_update : UserUpdate.t) : M User.t :=
  admin_guard bearer;;
  user ← update_user_route id user_update;
  mret user.

End Routes.

(** The value of a hexadecimal digit, for reading [UUID.hex] back. *)
Definition hex_value (a : ascii) : N :=
  (if Ascii.eqb a "0" then 0 else if Ascii.eqb a "1" then 1
   else if Ascii.eqb a "2" then 2 else if Ascii.eqb a "3" then 3
   else if Ascii.eqb a "4" then 4 else if Ascii.eqb a "5" then 5
   else if Ascii.eqb a "6" then 6 else if Ascii.eqb a "7" then 7
   else if Ascii.eqb a "8" then 8 else if Ascii.eqb a "9" then 9
   else if Ascii.eqb a "a" then 10 else if Ascii.eqb a "b" then 11
   else if Ascii.eqb a "c" then 12 else if Ascii.eqb a "d" then 13
   else if Ascii.eqb a "e" then 14 else 15)%N%char.

(** ** A small deployment, to run the definitions on *)

Definition demo_config : Config :=
  {| ADMIN_EMAIL := "admin@example.org";
     ADMIN_PASSWORD := "change-me";
     SECRET_KEY := "k3y";
     ACCESS_TOKEN_EXPIRE := 1800;
     RATE_LIMIT := 2;
     RATE_WINDOW := 60 |}.

Definition demo_env : Env :=
  {| config := demo_config;
     sign := λ key c, key +:+ ":" +:+ UUID_hex (sub c);
     get_password_hash := λ plain, "hash:" +:+ plain;
     verify_password := λ plain hashed, String.eqb ("hash:" +:+ plain) hashed;
     uuid4 := λ n, (1000 + N.of_nat n)%N |}.

Definition alice : User.t :=
  User.Build 1%N "alice" "alice@example.org" "hash:wonderland" true
    [Role.USER].

Definition bob : User.t :=
  User.Build 2%N "bob" "bob@example.org" "hash:builder" false [Role.USER].

Definition alice_post : Post.t := Post.Build 10%N 1%N "hello".

Definition bob_post : Post.t := Post.Build 11%N 2%N "world".

Definition demo_world : World :=
  {| users := [alice; bob];
     posts := [alice_post; bob_post];
     bt := [];
     limiter := ∅;
     now := 1000;
     draws := 0;
     log := [] |}.

Definition alice_token : TokenDecode.t := TokenDecode.Build 1%N [Role.USER].

(** The form alice logs in with, asking for a scope she does not hold,
    and the token she is issued. *)
Definition alice_form : OAuth2PasswordRequestForm :=
  {| username := "alice@example.org"; form_password := "wonderland";
     form_scopes := ["admin"] |}.

Definition alice_issued : TokenEncode.t :=
  TokenEncode.Build
    (Jws {| sub := 1%N; scopes := [Role.USER]; exp := 2800 |}
       "k3y:00000000000000000000000000000001")
    "bearer".

(** Two registrations: a new address, and one that is taken. *)
Definition carol_in : UserIn.t :=
  UserIn.Build "carol" "carol@example.org" "tea" false [Role.USER].

Definition alice_again_in : UserIn.t :=
  UserIn.Build "alice2" "alice@example.org" "tea" false [Role.USER].

(** A token of alice, rightly signed, that expired a second ago. *)
Definition expired_token : token_str :=
  Jws {| sub := 1%N; scopes := [Role.USER]; exp := 999 |}
    "k3y:00000000000000000000000000000001".

(** A world in which bob has already called a guarded route twice. *)
Definition busy_world : World :=
  {| users := [alice; bob];
     posts := [alice_post; bob_post];
     bt := [];
     limiter := {[ UUID_hex 2%N := [990; 995] ]};
     now := 1000;
     draws := 0;
     log := [] |}.

(** A second registration under carol's address. *)
Definition carol_again_in : UserIn.t :=
  UserIn.Build "caroline" "carol@example.org" "coffee" true [Role.ADMIN].

(** A payload that only withdraws the verification. *)
Definition unverify : UserUpdate.t :=
  UserUpdate.Build None None None (Some false) None.

(** ** Properties *)

Ltac munfold :=
  unfold mbind, M_bind, mret, M_ret, raise, lift, gets, modify in *.

Section Properties.

Context {env : Env}.

(** *** Lookups *)

Lemma find_hit {E R} (table : World → list E) flt raise_
    (rel : option (list R)) w e :
  List.find flt (table w) = Some e →
  find table flt raise_ rel w = (Ok (Some e), w).
Proof. intros Hf. unfold find. by rewrite Hf. Qed.

Lemma find_miss {E R} (table : World → list E) flt (rel : option (list R)) w :
  List.find flt (table w) = None →
  find table flt true rel w = (Raise (HTTPError NotFound), w)
  ∧ find table flt false rel w = (Ok None, w).
Proof. intros Hf. unfold find. by rewrite Hf. Qed.

Lemma find_world {E R} (table : World → list E) flt raise_
    (rel : option (list R)) w r w' :
  find table flt raise_ rel w = (r, w') → w' = w.
Proof.
  unfold find. destruct (List.find flt (table w)); [|destruct raise_];
    intros [= _ <-]; reflexivity.
Qed.

(** A key column identifies its row. *)
Lemma key_identifies {A K} (key : A → K) (l : list A) (x y : A) :
  NoDup (key <$> l) → x ∈ l → y ∈ l → key x = key y → x = y.
Proof.
  induction l as [|a l IH]; intros Hnd Hx Hy Hk.
  - by apply elem_of_nil in Hx.
  - rewrite fmap_cons in Hnd. apply NoDup_cons in Hnd as [Hna Hnd].
    apply elem_of_cons in Hx as [->|Hx]; apply elem_of_cons in Hy as [->|Hy].
    + reflexivity.
    + exfalso. apply Hna. rewrite Hk. by apply list_elem_of_fmap_2.
    + exfalso. apply Hna. rewrite <- Hk. by apply list_elem_of_fmap_2.
    + by apply IH.
Qed.

Lemma owned_filter_true post_id owner p :
  owned_filter post_id owner p = true ↔
  Post.id p = post_id ∧ Post.user_id p = owner.
Proof.
  unfold owned_filter. rewrite andb_true_iff, !bool_decide_eq_true.
  reflexivity.
Qed.

Lemma load_post_hit post_id token w r w' :
  load_post post_id token w = (Ok r, w') →
  ∃ q, r = Some q ∧ q ∈ posts w ∧ Post.id q = post_id
       ∧ Post.user_id q = TokenDecode.id token.
Proof.
  unfold load_post, find.
  destruct (List.find _ (posts w)) as [q|] eqn:Hf; [|discriminate].
  intros [= <- _]. apply find_some in Hf as [Hin Hq].
  apply (owned_filter_true post_id (TokenDecode.id token)) in Hq as [? ?].
  exists q. by rewrite list_elem_of_In.
Qed.

Lemma load_post_foreign post_id token w p :
  NoDup (Post.id <$> posts w) →
  p ∈ posts w → Post.id p = post_id →
  Post.user_id p ≠ TokenDecode.id token →
  load_post post_id token w = (Raise (HTTPError NotFound), w).
Proof.
  intros Hnd Hp Hid Hown.
  destruct (load_post post_id token w) as [[r|e] w'] eqn:Hl.
  - exfalso. apply load_post_hit in Hl as (q & _ & Hq & Hqid & Hqown).
    assert (q = p) as -> by (eapply key_identifies; eauto; congruence).
    contradiction.
  - unfold load_post, find in Hl.
    destruct (List.find _ (posts w)); by inversion Hl.
Qed.

(** C1. A subject cannot load a post of another subject: when the post
    with the requested id is owned by someone other than the subject of
    the token, [load_post] and [load_post_limited] raise the not-found
    failure and leave the world as it is; and whatever post either of
    them returns, for any id, is a post of the table with that id whose
    [user_id] is the subject of the token.  The post id is the key of the
    post table. *)
Theorem load_post_ownership (w : World) (post_id : UUID)
    (token : TokenDecode.t) (p : Post.t) :
  NoDup (Post.id <$> posts w) →
  p ∈ posts w → Post.id p = post_id →
  Post.user_id p ≠ TokenDecode.id token →
  load_post post_id token w = (Raise (HTTPError NotFound), w)
  ∧ load_post_limited post_id token w = (Raise (HTTPError NotFound), w)
  ∧ (∀ i r w', load_post i token w = (Ok r, w')
               ∨ load_post_limited i token w = (Ok r, w') →
       ∃ q, r = Some q ∧ q ∈ posts w ∧ Post.id q = i
            ∧ Post.user_id q = TokenDecode.id token).
Proof.
  intros Hnd Hp Hid Hown. split; [|split].
  - by eapply load_post_foreign.
  - change (load_post_limited post_id token w)
      with (load_post post_id token w). by eapply load_post_foreign.
  - intros i r w' [Hl|Hl]; by eapply load_post_hit.
Qed.

(** *** Credential authentication *)

Lemma find_by_email (l : list User.t) (u : User.t) :
  NoDup (User.email <$> l) → u ∈ l →
  List.find (λ x, String.eqb (User.email x) (User.email u)) l = Some u.
Proof.
  induction l as [|a l IH]; intros Hnd Hu.
  - by apply elem_of_nil in Hu.
  - rewrite fmap_cons in Hnd. apply NoDup_cons in Hnd as [Hna Hnd].
    simpl. destruct (String.eqb_spec (User.email a) (User.email u)) as [He|He].
    + apply elem_of_cons in Hu as [->|Hu]; [reflexivity|].
      exfalso. apply Hna. rewrite He. by apply list_elem_of_fmap_2.
    + apply elem_of_cons in Hu as [->|Hu]; [congruence|]. by apply IH.
Qed.

Lemma find_email_none (l : list User.t) (e : string) :
  (∀ u, u ∈ l → User.email u ≠ e) →
  List.find (λ x, String.eqb (User.email x) e) l = None.
Proof.
  induction l as [|a l IH]; intros Hall; [reflexivity|].
  simpl. destruct (String.eqb_spec (User.email a) e) as [He|He].
  - exfalso. apply (Hall a); [left|exact He].
  - apply IH. intros u Hu. apply Hall. by right.
Qed.

Lemma find_email_some (l : list User.t) (e : string) (u : User.t) :
  List.find (λ x, String.eqb (User.email x) e) l = Some u →
  u ∈ l ∧ User.email u = e.
Proof.
  intros Hf. apply find_some in Hf as [Hin He].
  apply String.eqb_eq in He. by rewrite list_elem_of_In.
Qed.

(** C2. Credential authentication, over a user table in which the email
    is unique.  With the email of a registered subject: the right
    password of a verified subject returns that subject; a wrong password
    raises [unauthorized_basic()]; the right password of a subject that
    is not verified raises [forbidden] with its own message.  With an
    email nobody is registered under, it raises the same
    [unauthorized_basic()] as a wrong password does, not a not-found
    failure.  No case changes the world. *)
Theorem authenticate_outcomes (self : Authenticate)
    (credentials : OAuth2PasswordRequestForm) (w : World) :
  NoDup (User.email <$> users w) →
  (∀ u, u ∈ users w → User.email u = username credentials →
     check_password u (form_password credentials) = true →
     User.verified u = true →
     Authenticate_call self credentials w = (Ok u, w))
  ∧ (∀ u, u ∈ users w → User.email u = username credentials →
       check_password u (form_password credentials) = false →
       Authenticate_call self credentials w = (Raise unauthorized_basic, w))
  ∧ ((∀ u, u ∈ users w → User.email u ≠ username credentials) →
       Authenticate_call self credentials w = (Raise unauthorized_basic, w))
  ∧ (∀ u, u ∈ users w → User.email u = username credentials →
       check_password u (form_password credentials) = true →
       User.verified u = false →
       Authenticate_call self credentials w
       = (Raise (forbidden "User not verified. Request reset password."), w))
  ∧ kind_of unauthorized_basic = Some Unauthorized
  ∧ (∀ msg, kind_of (forbidden msg) = Some Forbidden).
Proof.
  intros Hnd.
  assert (Hreg : ∀ u, u ∈ users w → User.email u = username credentials →
            find users (λ x, String.eqb (User.email x) (username credentials))
              false (relationships self) w = (Ok (Some u), w)).
  { intros u Hu He. apply find_hit. rewrite <- He. by apply find_by_email. }
  repeat split.
  - intros u Hu He Hpw Hv. unfold Authenticate_call. munfold.
    rewrite (Hreg u Hu He), Hpw, Hv. reflexivity.
  - intros u Hu He Hpw. unfold Authenticate_call. munfold.
    rewrite (Hreg u Hu He), Hpw. reflexivity.
  - intros Hnone. unfold Authenticate_call. munfold.
    unfold find. rewrite (find_email_none _ _ Hnone). reflexivity.
  - intros u Hu He Hpw Hv. unfold Authenticate_call. munfold.
    rewrite (Hreg u Hu He), Hpw, Hv. reflexivity.
Qed.

(** *** Token codec *)

Lemma Role_call_value (r : Role.t) : Role.call (Role.value r) = Ok r.
Proof. by destruct r. Qed.

Lemma traverse_Role_call (l : list Role.t) :
  traverse Role.call (Role.value <$> l) = Ok l.
Proof.
  induction l as [|r l IH]; [reflexivity|].
  rewrite fmap_cons. simpl. by rewrite Role_call_value, IH.
Qed.

Lemma intersects_true (required granted : list Role.t) :
  intersects required granted = true ↔ ∃ r, r ∈ required ∧ r ∈ granted.
Proof.
  unfold intersects. rewrite existsb_exists. split.
  - intros (r & Hin & Hr). exists r.
    apply bool_decide_eq_true in Hr. by rewrite list_elem_of_In.
  - intros (r & Hin & Hr). exists r.
    rewrite bool_decide_eq_true. by rewrite <- list_elem_of_In.
Qed.

Lemma intersects_false (required granted : list Role.t) :
  intersects required granted = false ↔ ∀ r, r ∈ required → r ∉ granted.
Proof.
  rewrite <- not_true_iff_false, intersects_true. split.
  - intros Hn r Hr Hg. apply Hn. by exists r.
  - intros Hall (r & Hr & Hg). by apply (Hall r).
Qed.

Lemma verify_signature_encode (c : Claims) :
  verify_signature (Jws c (sign (SECRET_KEY config) c)) = Some c.
Proof. simpl. by rewrite String.eqb_refl. Qed.

Lemma Token_decode_ok (token : token_str) (scope : list Role.t)
    (w : World) (c : Claims) :
  verify_signature token = Some c →
  now w ≤ exp c →
  scope = [] ∨ (∃ r, r ∈ scope ∧ r ∈ scopes c) →
  Token_decode token scope w = (Ok (TokenDecode.Build (sub c) (scopes c)), w).
Proof.
  intros Hsig Hexp Hsc. unfold Token_decode. rewrite Hsig.
  destruct (Z.ltb_spec (exp c) (now w)); [lia|].
  destruct scope as [|r0 scope]; [reflexivity|].
  destruct Hsc as [|Hsc]; [discriminate|].
  apply intersects_true in Hsc. by rewrite Hsc.
Qed.

(** C3. Round trip of the token codec.  For every subject id and every
    list of roles, [Token(id, scope).encode()] returns a token which, as
    long as it has not expired, [Token.decode] with that same list as the
    required scopes accepts, returning the same id and the same scopes;
    and so does the guard [authorize] when the route declares the values
    of these roles. *)
Theorem token_round_trip (id : UUID) (scope : list Role.t) (w w' : World) :
  now w' ≤ now w + ACCESS_TOKEN_EXPIRE config →
  ∃ enc,
    Token_encode (Token.Build id scope) w = (Ok enc, w)
    ∧ Token_decode (TokenEncode.access_token enc) scope w'
      = (Ok (TokenDecode.Build id scope), w')
    ∧ authorize (TokenEncode.access_token enc) (Role.value <$> scope) w'
      = (Ok (TokenDecode.Build id scope), w').
Proof.
  intros Hexp. eexists. split; [reflexivity|]. simpl.
  set (c := {| sub := id; scopes := scope;
               exp := now w + ACCESS_TOKEN_EXPIRE config |}).
  assert (Hdec : Token_decode (Jws c (sign (SECRET_KEY config) c)) scope w'
                 = (Ok (TokenDecode.Build id scope), w')).
  { apply (Token_decode_ok _ scope w' c).
    - apply verify_signature_encode.
    - exact Hexp.
    - destruct scope as [|r l]; [by left|right].
      exists r. split; apply elem_of_cons; by left. }
  split; [exact Hdec|].
  unfold authorize. munfold. rewrite traverse_Role_call. by rewrite Hdec.
Qed.

(** C4. The failure kinds of [Token.decode], for every token string and
    every list of required scopes.  It raises the unauthorized failure
    when the signature check fails, and when the expiry has passed,
    whether the signature is the right one or not.  For a token that
    passes both checks, whose claims are then the token's scopes: it
    raises the forbidden failure when scopes are required and none of
    them is among the token's scopes, and it returns the subject id and
    the scopes of the token when no scope is required or some required
    scope is among them.  No case changes the world. *)
Theorem decode_failure_kinds (token : token_str) (scope : list Role.t)
    (w : World) :
  (verify_signature token = None →
     Token_decode token scope w = (Raise (HTTPError Unauthorized), w))
  ∧ (∀ c sg, token = Jws c sg → exp c < now w →
       Token_decode token scope w = (Raise (HTTPError Unauthorized), w))
  ∧ (∀ c, verify_signature token = Some c → now w ≤ exp c →
       scope ≠ [] → (∀ r, r ∈ scope → r ∉ scopes c) →
       Token_decode token scope w = (Raise (HTTPError Forbidden), w))
  ∧ (∀ c, verify_signature token = Some c → now w ≤ exp c →
       scope = [] ∨ (∃ r, r ∈ scope ∧ r ∈ scopes c) →
       Token_decode token scope w
       = (Ok (TokenDecode.Build (sub c) (scopes c)), w)).
Proof.
  repeat split.
  - intros Hsig. unfold Token_decode. by rewrite Hsig.
  - intros c sg -> Hexp. unfold Token_decode. simpl.
    destruct (String.eqb _ sg); [|reflexivity].
    destruct (Z.ltb_spec (exp c) (now w)); [reflexivity|lia].
  - intros c Hsig Hexp Hne Hdis. unfold Token_decode. rewrite Hsig.
    destruct (Z.ltb_spec (exp c) (now w)); [lia|].
    destruct scope as [|r0 scope]; [done|].
    apply intersects_false in Hdis. by rewrite Hdis.
  - intros c Hsig Hexp Hsc. by apply Token_decode_ok.
Qed.

(** *** User functions *)

Lemma find_app_miss {A} (f : A → bool) (l : list A) (x : A) :
  List.find f l = None → f x = true → List.find f (l ++ [x]) = Some x.
Proof.
  induction l as [|a l IH]; simpl; intros Hl Hx.
  - by rewrite Hx.
  - destruct (f a); [discriminate|]. by apply IH.
Qed.

Lemma find_email_exists (l : list User.t) (e : string) :
  (∃ u, u ∈ l ∧ User.email u = e) →
  ∃ a, List.find (λ x, String.eqb (User.email x) e) l = Some a.
Proof.
  intros (u & Hu & He).
  destruct (List.find _ l) as [a|] eqn:Hf; [by exists a|].
  exfalso. apply list_elem_of_In in Hu.
  apply (find_none _ _ Hf) in Hu. apply String.eqb_neq in Hu.
  contradiction.
Qed.

(** C5. Admin bootstrap.  When no subject has the configured admin
    email, [create_admin_user] adds exactly one row to the user table and
    returns it: its email is the configured one, its password the hash
    of the configured one, it is verified and its scope is [ADMIN]; the
    rows that were there are kept.  When a subject with that email
    exists, such a subject is returned and the world is left as it is.
    In both cases a second run returns the same subject and changes
    nothing. *)
Theorem create_admin_user_idempotent (w : World) :
  ((∀ u, u ∈ users w → User.email u ≠ ADMIN_EMAIL config) →
     ∃ a w1,
       create_admin_user w = (Ok a, w1)
       ∧ users w1 = users w ++ [a]
       ∧ User.name a = "admin"
       ∧ User.email a = ADMIN_EMAIL config
       ∧ User.password a = get_password_hash (ADMIN_PASSWORD config)
       ∧ User.verified a = true
       ∧ User.scope a = [Role.ADMIN]
       ∧ log w1 = log w ++ [Saved a])
  ∧ ((∃ u, u ∈ users w ∧ User.email u = ADMIN_EMAIL config) →
       ∃ a,
         create_admin_user w = (Ok a, w)
         ∧ a ∈ users w ∧ User.email a = ADMIN_EMAIL config)
  ∧ (∀ a w1, create_admin_user w = (Ok a, w1) →
       create_admin_user w1 = (Ok a, w1))
  ∧ (∃ a w1, create_admin_user w = (Ok a, w1)).
Proof.
  assert (Hnew : (∀ u, u ∈ users w → User.email u ≠ ADMIN_EMAIL config) →
            ∃ a w1,
              create_admin_user w = (Ok a, w1)
              ∧ users w1 = users w ++ [a]
              ∧ User.name a = "admin"
              ∧ User.email a = ADMIN_EMAIL config
              ∧ User.password a = get_password_hash (ADMIN_PASSWORD config)
              ∧ User.verified a = true
              ∧ User.scope a = [Role.ADMIN]
              ∧ log w1 = log w ++ [Saved a]).
  { intros Hnone. unfold create_admin_user. munfold. unfold find.
    rewrite (find_email_none _ _ Hnone). simpl.
    do 2 eexists. repeat split. }
  assert (Hold : (∃ u, u ∈ users w ∧ User.email u = ADMIN_EMAIL config) →
            ∃ a, create_admin_user w = (Ok a, w)
                 ∧ a ∈ users w ∧ User.email a = ADMIN_EMAIL config).
  { intros Hex. apply find_email_exists in Hex as [a Ha].
    exists a. unfold create_admin_user. munfold. unfold find. rewrite Ha.
    split; [reflexivity|]. by apply find_email_some in Ha. }
  assert (Hagain : ∀ a w1, create_admin_user w = (Ok a, w1) →
            create_admin_user w1 = (Ok a, w1)).
  { intros a w1. unfold create_admin_user at 1. munfold. unfold find.
    destruct (List.find _ (users w)) as [u|] eqn:Hf.
    - intros [= -> <-]. unfold create_admin_user. munfold. unfold find.
      by rewrite Hf.
    - simpl. intros [= <- <-]. unfold create_admin_user. munfold.
      unfold find. simpl. erewrite find_app_miss; [reflexivity|exact Hf|].
      simpl. apply String.eqb_refl. }
  repeat split; [exact Hnew|exact Hold|exact Hagain|].
  destruct (List.find (λ x, String.eqb (User.email x) (ADMIN_EMAIL config))
              (users w)) as [u|] eqn:Hf.
  - apply find_email_some in Hf as [Hu He].
    destruct Hold as (a & Ha & _); [by exists u|]. by exists a, w.
  - destruct Hnew as (a & w1 & Ha & _); [|by exists a, w1].
    intros u Hu He. apply list_elem_of_In in Hu.
    apply (find_none _ _ Hf) in Hu. apply String.eqb_neq in Hu.
    contradiction.
Qed.

Lemma create_user_taken (user_in : UserIn.t) (send_email : bool)
    (w : World) :
  (∃ u, u ∈ users w ∧ User.email u = UserIn.email user_in) →
  create_user user_in send_email w
  = (Raise (conflict "User already exists"), w).
Proof.
  intros Hex. apply find_email_exists in Hex as [a Ha].
  unfold create_user. munfold. unfold find. by rewrite Ha.
Qed.

Lemma create_user_free (user_in : UserIn.t) (send_email : bool)
    (w : World) :
  (∀ u, u ∈ users w → User.email u ≠ UserIn.email user_in) →
  ∃ user w',
    create_user user_in send_email w = (Ok user, w')
    ∧ users w' = users w ++ [user]
    ∧ User.email user = UserIn.email user_in
    ∧ log w'
      = log w ++ Saved user
          :: (if send_email
              then [ResetPasswordRequested (User.email user)] else [])
    ∧ bt w'
      = bt w ++ (if send_email
                 then [send_reset_password (User.email user)] else []).
Proof.
  intros Hnone. unfold create_user. munfold. unfold find.
  rewrite (find_email_none _ _ Hnone). simpl.
  destruct send_email; simpl; do 2 eexists; repeat split; simpl.
  - by rewrite <- app_assoc.
  - by rewrite app_nil_r.
Qed.

Lemma email_taken_or_free (l : list User.t) (e : string) :
  (∃ u, u ∈ l ∧ User.email u = e) ∨ (∀ u, u ∈ l → User.email u ≠ e).
Proof.
  destruct (List.find (λ x, String.eqb (User.email x) e) l) as [a|] eqn:Hf.
  - left. exists a. by apply find_email_some in Hf.
  - right. intros u Hu He. apply list_elem_of_In in Hu.
    apply (find_none _ _ Hf) in Hu. apply String.eqb_neq in Hu.
    contradiction.
Qed.

(** C8. [create_user] raises the conflict failure exactly when a subject
    with the email of the payload exists.  Whenever it raises, it is this
    failure and the world is the one it started from: no subject saved,
    no task handed to the background tasks, nothing logged.  When it
    returns, the user table has grown by the returned subject alone,
    which carries the email of the payload.  So the emails of the user
    table stay pairwise different. *)
Theorem create_user_conflict (user_in : UserIn.t) (send_email : bool)
    (w : World) :
  (raises (create_user user_in send_email w).1 Conflict
   ↔ ∃ u, u ∈ users w ∧ User.email u = UserIn.email user_in)
  ∧ (∀ e w', create_user user_in send_email w = (Raise e, w') →
       e = conflict "User already exists" ∧ w' = w)
  ∧ (∀ user w', create_user user_in send_email w = (Ok user, w') →
       users w' = users w ++ [user]
       ∧ User.email user = UserIn.email user_in)
  ∧ (NoDup (User.email <$> users w) →
       NoDup (User.email <$> users (create_user user_in send_email w).2)).
Proof.
  destruct (email_taken_or_free (users w) (UserIn.email user_in))
    as [Hex|Hnone].
  - rewrite (create_user_taken _ _ _ Hex). simpl.
    split; [done|]. split; [|split; [done|done]].
    by intros e w' [= <- <-].
  - destruct (create_user_free user_in send_email w Hnone)
      as (user & w' & -> & Hus & Hem & _). simpl.
    split; [|split; [done|split]].
    + split; [done|]. intros (u & Hu & He). by apply (Hnone u).
    + by intros user' w'' [= <- <-].
    + intros Hnd. rewrite Hus, fmap_app. apply NoDup_app.
      split; [exact Hnd|]. split.
      * intros e He Hin. simpl in Hin. apply list_elem_of_singleton in Hin.
        apply list_elem_of_fmap in He as (u & -> & Hu).
        apply (Hnone u Hu). congruence.
      * simpl. apply NoDup_singleton.
Qed.

(** C10. [create_user] and the reset-password email.  When no subject
    has the email of the payload, [create_user] saves the new subject and
    returns it, and then: with [send_email] true it requests the
    reset-password email for the saved subject's address, once, after the
    save; with [send_email] false it requests nothing.  Over all inputs, a
    task is handed to the background tasks exactly when [send_email] is
    true and the subject was saved.  A caller that leaves [send_email]
    out gets [True]. *)
Theorem create_user_email (user_in : UserIn.t) (send_email : bool)
    (w : World) :
  ((∀ u, u ∈ users w → User.email u ≠ UserIn.email user_in) →
     ∃ user w',
       create_user user_in send_email w = (Ok user, w')
       ∧ users w' = users w ++ [user]
       ∧ User.email user = UserIn.email user_in
       ∧ log w'
         = log w ++ Saved user
             :: (if send_email
                 then [ResetPasswordRequested (User.email user)] else [])
       ∧ bt w'
         = bt w ++ (if send_email
                    then [send_reset_password (User.email user)] else []))
  ∧ (bt (create_user user_in send_email w).2 ≠ bt w
     ↔ send_email = true
       ∧ is_ok (create_user user_in send_email w).1 = true)
  ∧ create_user_default user_in None w = create_user user_in true w
  ∧ (∀ b, create_user_default user_in (Some b) w = create_user user_in b w).
Proof.
  split; [apply create_user_free|]. split; [|done].
  destruct (email_taken_or_free (users w) (UserIn.email user_in))
    as [Hex|Hnone].
  - rewrite (create_user_taken _ _ _ Hex). simpl. split; [done|].
    by intros [_ ?].
  - destruct (create_user_free user_in send_email w Hnone)
      as (user & w' & -> & _ & _ & _ & Hbt). simpl. rewrite Hbt.
    destruct send_email.
    + split; [done|]. intros _ Heq. apply (f_equal length) in Heq.
      rewrite length_app in Heq. simpl in Heq. lia.
    + rewrite app_nil_r. split; [done|]. by intros [? _].
Qed.

(** *** Guards *)

Lemma Token_decode_world (token : token_str) (scope : list Role.t)
    (w : World) r w' :
  Token_decode token scope w = (r, w') → w' = w.
Proof.
  unfold Token_decode. destruct (verify_signature token) as [c|];
    [|by intros [= _ <-]].
  destruct (exp c <? now w); [by intros [= _ <-]|].
  destruct scope; [by intros [= _ <-]|].
  destruct (intersects _ _); by intros [= _ <-].
Qed.

Lemma authorize_world (token : token_str) (security_scopes : list string)
    (w : World) r w' :
  authorize token security_scopes w = (r, w') → w' = w.
Proof.
  unfold authorize. munfold.
  destruct (traverse Role.call security_scopes) as [sc|e];
    [|by intros [= _ <-]].
  destruct (Token_decode token sc w) as [[d|e] w1] eqn:Hd;
    apply Token_decode_world in Hd as ->; by intros [= _ <-].
Qed.

(** C6. The rate-limited guard.  When the guard [authorize] raises, for
    an undecodable token as for missing scopes, [authorizeLimitDep]
    raises the same failure in the same world: the limiter is not
    called, its store and the log are as they were.  When [authorize]
    yields the decoded token, the limiter is called once, with the hex
    form of the decoded subject id as its key; if that key already
    counts the configured number of calls in the window, the guard
    raises the rate-limited failure and yields no token, and otherwise
    it yields the decoded token and the call is recorded. *)
Theorem authorize_limited_guard (token : token_str)
    (security_scopes : list string) (w : World) :
  (∀ e w', authorize token security_scopes w = (Raise e, w') →
     authorizeLimitDep token security_scopes w = (Raise e, w))
  ∧ (∀ d w', authorize token security_scopes w = (Ok d, w') →
       let key := UUID_hex (TokenDecode.id d) in
       let r := authorizeLimitDep token security_scopes w in
       r = authorize_limited d w
       ∧ log r.2 = log w ++ [RateLimiterCalled key]
       ∧ ((RATE_LIMIT config ≤ length (counted key w))%nat →
            r.1 = Raise (HTTPError RateLimited)
            ∧ limiter r.2 = limiter w)
       ∧ ((length (counted key w) < RATE_LIMIT config)%nat →
            r.1 = Ok d
            ∧ limiter r.2 = <[key := now w :: counted key w]> (limiter w))).
Proof.
  split.
  - intros e w' Ha. pose proof (authorize_world _ _ _ _ _ Ha) as ->.
    unfold authorizeLimitDep. munfold. by rewrite Ha.
  - intros d w' Ha key r. pose proof (authorize_world _ _ _ _ _ Ha) as ->.
    assert (Hr : r = authorize_limited d w).
    { subst r. unfold authorizeLimitDep. munfold. by rewrite Ha. }
    split; [exact Hr|]. rewrite Hr. clear Hr r.
    unfold authorize_limited, rate_limiter, counted. munfold. fold key.
    simpl. case_bool_decide as Hc; simpl.
    + split; [done|]. split; [done|]. intros Hlt. lia.
    + split; [done|]. split; [intros Hle; lia|done].
Qed.

(** *** Updates and issued tokens *)

Lemma replace_row_other (u u' r : User.t) (l : list User.t) :
  r ∈ l → User.id r ≠ User.id u →
  r ∈ map (λ x, if bool_decide (User.id x = User.id u) then u' else x) l.
Proof.
  intros Hr Hne. apply list_elem_of_In, in_map_iff. exists r.
  rewrite bool_decide_eq_false_2 by exact Hne.
  split; [reflexivity|]. by apply list_elem_of_In.
Qed.

(** C7. Partial update.  [update_user] returns the user with each field
    of the payload that is provided assigned (a password as its hash) and
    each field that is absent left at its prior value; the identifier is
    kept, and the rows of the other users are untouched. *)
Theorem update_user_partial (user : User.t) (user_update : UserUpdate.t)
    (w : World) :
  ∃ u' w',
    update_user user user_update w = (Ok u', w')
    ∧ User.id u' = User.id user
    ∧ match UserUpdate.name user_update with
      | None => User.name u' = User.name user
      | Some v => User.name u' = v
      end
    ∧ match UserUpdate.email user_update with
      | None => User.email u' = User.email user
      | Some v => User.email u' = v
      end
    ∧ match UserUpdate.password user_update with
      | None => User.password u' = User.password user
      | Some v => User.password u' = get_password_hash v
      end
    ∧ match UserUpdate.verified user_update with
      | None => User.verified u' = User.verified user
      | Some v => User.verified u' = v
      end
    ∧ match UserUpdate.scope user_update with
      | None => User.scope u' = User.scope user
      | Some v => User.scope u' = v
      end
    ∧ (∀ r, r ∈ users w → User.id r ≠ User.id user → r ∈ users w').
Proof.
  do 2 eexists. split; [reflexivity|].
  destruct user_update as [[n|] [e|] [p|] [v|] [s|]]; simpl;
    repeat (split; [reflexivity|]); intros r Hr Hne;
    by apply replace_row_other.
Qed.

(** C9. The scopes of an issued token.  Whenever [Authenticate.to_token]
    returns a token, the credentials authenticate a subject of the user
    table, and the token is signed over claims that carry that subject's
    id and exactly that subject's stored scopes; the scopes the form asks
    for have no part in it. *)
Theorem to_token_scope (credentials : OAuth2PasswordRequestForm)
    (w w' : World) (enc : TokenEncode.t) :
  Authenticate_to_token credentials w = (Ok enc, w') →
  w' = w
  ∧ ∃ user c,
      Authenticate_call (Authenticate_init false) credentials w
      = (Ok user, w)
      ∧ user ∈ users w
      ∧ User.email user = username credentials
      ∧ verify_signature (TokenEncode.access_token enc) = Some c
      ∧ sub c = User.id user
      ∧ scopes c = User.scope user
      ∧ (∀ asked,
           Authenticate_to_token
             {| username := username credentials;
                form_password := form_password credentials;
                form_scopes := asked |} w
           = (Ok enc, w)).
Proof.
  unfold Authenticate_to_token, Authenticate_call. munfold. unfold find.
  destruct (List.find _ (users w)) as [user|] eqn:Hf; [|discriminate].
  simpl. destruct (check_password user _) eqn:Hpw; [|discriminate].
  destruct (User.verified user) eqn:Hv; [|discriminate]. simpl.
  intros [= <- <-]. split; [reflexivity|].
  apply find_email_some in Hf as Hu. destruct Hu as [Hu He].
  eexists user, _. split; [reflexivity|].
  split; [exact Hu|]. split; [exact He|].
  split; [apply verify_signature_encode|].
  split; [reflexivity|]. split; [reflexivity|].
  intros asked. by rewrite Hf, Hpw, Hv.
Qed.

End Properties.

Lemma load_post_ownership_witness :
  load_post 11%N alice_token demo_world
  = (Raise (HTTPError NotFound), demo_world).
Proof.
  apply (load_post_ownership demo_world 11%N alice_token bob_post).
  - apply (bool_decide_unpack _). vm_compute. exact I.
  - apply (bool_decide_unpack _). vm_compute. exact I.
  - reflexivity.
  - vm_compute. discriminate.
Defined.

Lemma authenticate_outcomes_witness :
  Authenticate_call (env := demo_env) (Authenticate_init false)
    {| username := "alice@example.org"; form_password := "wonderland";
       form_scopes := [] |} demo_world
  = (Ok alice, demo_world).
Proof.
  refine (proj1 (authenticate_outcomes (env := demo_env)
                   (Authenticate_init false) _ demo_world _) alice _ _ _ _).
  - apply (bool_decide_unpack _). vm_compute. exact I.
  - apply (bool_decide_unpack _). vm_compute. exact I.
  - reflexivity.
  - reflexivity.
  - reflexivity.
Defined.

Lemma token_round_trip_witness :
  ∃ enc,
    Token_encode (env := demo_env) (Token.Build 1%N [Role.USER]) demo_world
    = (Ok enc, demo_world)
    ∧ Token_decode (env := demo_env) (TokenEncode.access_token enc)
        [Role.USER] demo_world
      = (Ok (TokenDecode.Build 1%N [Role.USER]), demo_world)
    ∧ authorize (env := demo_env) (TokenEncode.access_token enc)
        (Role.value <$> [Role.USER]) demo_world
      = (Ok (TokenDecode.Build 1%N [Role.USER]), demo_world).
Proof.
  apply (token_round_trip (env := demo_env) 1%N [Role.USER] demo_world
           demo_world).
  vm_compute. discriminate.
Defined.

Lemma decode_failure_kinds_witness :
  Token_decode (env := demo_env) expired_token [Role.USER] demo_world
  = (Raise (HTTPError Unauthorized), demo_world).
Proof.
  refine (proj1 (proj2 (decode_failure_kinds (env := demo_env) expired_token
                          [Role.USER] demo_world)) _ _ eq_refl _).
  vm_compute. reflexivity.
Defined.

Lemma create_admin_user_idempotent_witness :
  ∃ a w1,
    create_admin_user (env := demo_env) demo_world = (Ok a, w1)
    ∧ users w1 = users demo_world ++ [a]
    ∧ User.name a = "admin"
    ∧ User.email a = "admin@example.org"
    ∧ User.password a = "hash:change-me"
    ∧ User.verified a = true
    ∧ User.scope a = [Role.ADMIN]
    ∧ log w1 = log demo_world ++ [Saved a].
Proof.
  apply (proj1 (create_admin_user_idempotent (env := demo_env) demo_world)).
  apply (proj1 (Forall_forall _ _)).
  apply (bool_decide_unpack _). vm_compute. exact I.
Defined.

Lemma create_user_conflict_witness :
  raises (create_user (env := demo_env) alice_again_in true demo_world).1
    Conflict.
Proof.
  apply (proj1 (create_user_conflict (env := demo_env) alice_again_in true
                  demo_world)).
  exists alice. split; [|reflexivity].
  apply (bool_decide_unpack _). vm_compute. exact I.
Defined.

Lemma create_user_email_witness :
  ∃ user w',
    create_user (env := demo_env) carol_in true demo_world = (Ok user, w')
    ∧ users w' = users demo_world ++ [user]
    ∧ User.email user = "carol@example.org"
    ∧ log w'
      = log demo_world
        ++ [Saved user; ResetPasswordRequested (User.email user)]
    ∧ bt w' = bt demo_world ++ [send_reset_password (User.email user)].
Proof.
  apply (proj1 (create_user_email (env := demo_env) carol_in true demo_world)).
  apply (proj1 (Forall_forall _ _)).
  apply (bool_decide_unpack _). vm_compute. exact I.
Defined.

Lemma authorize_limited_guard_witness :
  authorizeLimitDep (env := demo_env) expired_token ["user"] demo_world
  = (Raise (HTTPError Unauthorized), demo_world).
Proof.
  apply (proj1 (authorize_limited_guard (env := demo_env) expired_token
                  ["user"] demo_world) _ demo_world).
  vm_compute. reflexivity.
Defined.

Lemma to_token_scope_witness :
  ∃ user c,
    Authenticate_call (env := demo_env) (Authenticate_init false)
      alice_form demo_world
    = (Ok user, demo_world)
    ∧ user ∈ users demo_world
    ∧ User.email user = username alice_form
    ∧ verify_signature (env := demo_env)
        (TokenEncode.access_token alice_issued) = Some c
    ∧ sub c = User.id user
    ∧ scopes c = User.scope user
    ∧ (∀ asked,
         Authenticate_to_token (env := demo_env)
           {| username := username alice_form;
              form_password := form_password alice_form;
              form_scopes := asked |} demo_world
         = (Ok alice_issued, demo_world)).
Proof.
  apply (proj2 (to_token_scope (env := demo_env) alice_form demo_world
                  demo_world alice_issued eq_refl)).
Defined.

(** ** Runs on the small deployment *)

Example alice_loads_her_post :
  load_post 10%N alice_token demo_world = (Ok (Some alice_post), demo_world).
Proof. reflexivity. Qed.

Example wrong_password_is_unauthorized :
  (Authenticate_call (env := demo_env) (Authenticate_init false)
     {| username := "alice@example.org"; form_password := "looking-glass";
        form_scopes := [] |} demo_world).1
  = Raise unauthorized_basic.
Proof. reflexivity. Qed.

Example unknown_email_is_unauthorized :
  (Authenticate_call (env := demo_env) (Authenticate_init false)
     {| username := "mallory@example.org"; form_password := "wonderland";
        form_scopes := [] |} demo_world).1
  = Raise unauthorized_basic.
Proof. reflexivity. Qed.

Example unverified_is_forbidden :
  (Authenticate_call (env := demo_env) (Authenticate_init true)
     {| username := "bob@example.org"; form_password := "builder";
        form_scopes := [] |} demo_world).1
  = Raise (forbidden "User not verified. Request reset password.").
Proof. reflexivity. Qed.

Example alice_is_issued_her_token :
  Authenticate_to_token (env := demo_env) alice_form demo_world
  = (Ok alice_issued, demo_world).
Proof. reflexivity. Qed.

Example missing_scope_is_forbidden :
  (authorize (env := demo_env) (TokenEncode.access_token alice_issued)
     ["admin"] demo_world).1
  = Raise (HTTPError Forbidden).
Proof. reflexivity. Qed.

Example unknown_scope_is_value_error :
  (authorize (env := demo_env) (TokenEncode.access_token alice_issued)
     ["root"] demo_world).1
  = Raise (ValueError "root").
Proof. reflexivity. Qed.

(** With a threshold of two calls per window, the third guarded request of
    alice in the same second is refused. *)
Example third_call_is_rate_limited :
  let guard := authorizeLimitDep (env := demo_env)
                 (TokenEncode.access_token alice_issued) ["user"] in
  let w1 := (guard demo_world).2 in
  let w2 := (guard w1).2 in
  (guard demo_world).1 = Ok alice_token
  ∧ (guard w1).1 = Ok alice_token
  ∧ (guard w2).1 = Raise (HTTPError RateLimited).
Proof. vm_compute. repeat split. Qed.

Example update_only_the_name :
  (update_user (env := demo_env) alice
     (UserUpdate.Build (Some "Alice L.") None None None None) demo_world).1
  = Ok (User.Build 1%N "Alice L." "alice@example.org" "hash:wonderland" true
          [Role.USER]).
Proof. reflexivity. Qed.

Example hex_of_a_uuid :
  UUID_hex 255%N = "000000000000000000000000000000ff".
Proof. reflexivity. Qed.

(** ** How the guards, the authenticator and the routes compose *)

Section Composition.

Context {env : Env}.

(** *** The guard [authorize] *)

Lemma traverse_raise {A B} (f : A → result B) (l : list A) (e : exception) :
  traverse f l = Raise e → ∃ x, x ∈ l ∧ f x = Raise e.
Proof.
  induction l as [|a l IH]; simpl; [discriminate|].
  destruct (f a) as [y|e'] eqn:Hfa.
  - destruct (traverse f l) as [ys|e'']; [discriminate|].
    intros [= ->]. destruct IH as (x & Hx & Hfx); [reflexivity|].
    exists x. split; [by right|exact Hfx].
  - intros [= ->]. exists a. split; [by left|exact Hfa].
Qed.

Lemma traverse_ok_raise {A B} (f : A → result B) (l : list A) (x : A)
    (e : exception) :
  x ∈ l → f x = Raise e → ∃ e', traverse f l = Raise e'.
Proof.
  induction l as [|a l IH]; intros Hx Hfx; [by apply elem_of_nil in Hx|].
  simpl. destruct (f a) as [y|e'] eqn:Hfa; [|by exists e'].
  apply elem_of_cons in Hx as [->|Hx]; [congruence|].
  destruct (IH Hx Hfx) as [e' ->]. by exists e'.
Qed.

Lemma Role_call_raise (i : string) (e : exception) :
  Role.call i = Raise e → e = ValueError i ∧ ∀ r, Role.value r ≠ i.
Proof.
  unfold Role.call.
  destruct (List.find _ Role.members) as [r|] eqn:Hf; [discriminate|].
  intros [= <-]. split; [reflexivity|]. intros r Hr.
  assert (Hin : In r Role.members) by (destruct r; simpl; tauto).
  apply (find_none _ _ Hf) in Hin. apply String.eqb_neq in Hin. contradiction.
Qed.

Lemma Role_call_ok (i : string) (r : Role.t) :
  Role.call i = Ok r → Role.value r = i.
Proof.
  unfold Role.call.
  destruct (List.find _ Role.members) as [r'|] eqn:Hf; [|discriminate].
  intros [= ->]. apply find_some in Hf as [_ Hf]. by apply String.eqb_eq.
Qed.

(** X1. A declared scope that is no value of [Role] makes [authorize]
    raise [ValueError] for such a scope, whatever the token is: the list of
    roles is built before the token is decoded.  The world is left as it
    is. *)
Theorem authorize_unknown_scope (token : token_str)
    (security_scopes : list string) (w : World) (s : string) :
  s ∈ security_scopes → (∀ r, Role.value r ≠ s) →
  ∃ v, authorize token security_scopes w = (Raise (ValueError v), w)
       ∧ v ∈ security_scopes ∧ ∀ r, Role.value r ≠ v.
Proof.
  intros Hs Hno.
  assert (Hraise : ∃ e, Role.call s = Raise e).
  { destruct (Role.call s) as [r|e] eqn:Hc; [|by exists e].
    apply Role_call_ok in Hc. by destruct (Hno r). }
  destruct Hraise as [e He].
  destruct (traverse_ok_raise Role.call _ _ _ Hs He) as [e' Ht].
  destruct (traverse_raise _ _ _ Ht) as (v & Hv & Hcv).
  apply Role_call_raise in Hcv as [-> Hnov].
  exists v. split; [|by split].
  unfold authorize. munfold. by rewrite Ht.
Qed.

(** X2. What a token yielded by [authorize] guarantees.  Whenever
    [authorize] returns, every declared scope is the value of a role, the
    bearer token carries the right signature over its claims, it has not
    expired, the payload returned is the subject id and the scopes of these
    claims, and when scopes are declared at least one of them is among the
    scopes returned.  The world is left as it is. *)
Theorem authorize_sound (token : token_str) (security_scopes : list string)
    (w w' : World) (d : TokenDecode.t) :
  authorize token security_scopes w = (Ok d, w') →
  w' = w
  ∧ ∃ roles c,
      security_scopes = Role.value <$> roles
      ∧ verify_signature token = Some c
      ∧ now w ≤ exp c
      ∧ d = TokenDecode.Build (sub c) (scopes c)
      ∧ (roles = [] ∨ ∃ r, r ∈ roles ∧ r ∈ TokenDecode.scope d).
Proof.
  intros Ha. pose proof (authorize_world _ _ _ _ _ Ha) as ->.
  split; [reflexivity|]. revert Ha. unfold authorize. munfold.
  destruct (traverse Role.call security_scopes) as [roles|e] eqn:Ht;
    [|discriminate].
  unfold Token_decode. destruct (verify_signature token) as [c|];
    [|discriminate].
  destruct (Z.ltb_spec (exp c) (now w)); [discriminate|].
  assert (Hsc : security_scopes = Role.value <$> roles).
  { clear -Ht. revert roles Ht.
    induction security_scopes as [|s l IH]; simpl; intros roles.
    - by intros [= <-].
    - destruct (Role.call s) as [r|] eqn:Hc; [|discriminate].
      destruct (traverse Role.call l) as [rs|]; [|discriminate].
      intros [= <-]. rewrite fmap_cons. f_equal.
      + symmetry. by apply Role_call_ok.
      + by apply IH. }
  destruct roles as [|r0 roles].
  - intros [= <-]. exists [], c. repeat split; try done. by left.
  - destruct (intersects (r0 :: roles) (scopes c)) eqn:Hi; [|discriminate].
    intros [= <-]. exists (r0 :: roles), c. repeat split; try done.
    right. by apply intersects_true.
Qed.

(** *** The rate-limited guard *)

Lemma hex_value_digit (d : N) : (d < 16)%N → hex_value (hex_digit d) = d.
Proof.
  intros Hd.
  assert (Hcases : Forall (λ k, hex_value (hex_digit k) = k)
                     (N.of_nat <$> seq 0 16)).
  { vm_compute. repeat constructor. }
  rewrite Forall_forall in Hcases. apply Hcases.
  apply list_elem_of_fmap. exists (N.to_nat d). split; [lia|].
  apply list_elem_of_In, in_seq. lia.
Qed.

Lemma hex_digits_inj (k : nat) (n m : N) (acc acc' : string) :
  (n < 16 ^ N.of_nat k)%N → (m < 16 ^ N.of_nat k)%N →
  hex_digits k n acc = hex_digits k m acc' → n = m ∧ acc = acc'.
Proof.
  revert n m acc acc'. induction k as [|k IH]; intros n m acc acc' Hn Hm.
  - simpl in *. intros ->. split; [lia|reflexivity].
  - rewrite Nat2N.inj_succ, N.pow_succ_r' in Hn, Hm. simpl. intros Heq.
    apply IH in Heq as [Hdiv Hacc].
    + injection Hacc as Hd ->. split; [|reflexivity].
      apply (f_equal hex_value) in Hd.
      rewrite !hex_value_digit in Hd by (apply N.mod_lt; lia).
      rewrite (N.div_mod n 16), (N.div_mod m 16) by lia. congruence.
    + apply N.Div0.div_lt_upper_bound. lia.
    + apply N.Div0.div_lt_upper_bound. lia.
Qed.

Lemma UUID_hex_inj (u v : UUID) :
  (u < 2 ^ 128)%N → (v < 2 ^ 128)%N → UUID_hex u = UUID_hex v → u = v.
Proof.
  intros Hu Hv Heq.
  apply (hex_digits_inj 32 u v "" "") in Heq as [? _]; [done| |].
  - change (16 ^ N.of_nat 32)%N with (2 ^ 128)%N. exact Hu.
  - change (16 ^ N.of_nat 32)%N with (2 ^ 128)%N. exact Hv.
Qed.

Lemma authorize_limited_world (d : TokenDecode.t) (w : World) r w' :
  authorize_limited d w = (r, w') →
  let key := UUID_hex (TokenDecode.id d) in
  users w' = users w ∧ posts w' = posts w ∧ bt w' = bt w ∧ now w' = now w
  ∧ (limiter w' = limiter w
     ∨ limiter w' = <[key := now w :: counted key w]> (limiter w)).
Proof.
  unfold authorize_limited, rate_limiter. munfold. simpl.
  case_bool_decide; intros [= _ <-]; simpl; repeat split;
    first [by left | by right].
Qed.

(** X3. The rate-limited guard lets through no more than the plain guard:
    whenever [authorizeLimitDep] yields a token, [authorize] yields that
    very token for the same request; the tables, the background tasks and
    the clock are left as they are, and in the limiter's store only the
    entry of the token's subject can have changed. *)
Theorem authorizeLimitDep_refines (token : token_str)
    (security_scopes : list string) (w w' : World) (d : TokenDecode.t) :
  authorizeLimitDep token security_scopes w = (Ok d, w') →
  authorize token security_scopes w = (Ok d, w)
  ∧ users w' = users w ∧ posts w' = posts w ∧ bt w' = bt w
  ∧ now w' = now w
  ∧ ∀ key, key ≠ UUID_hex (TokenDecode.id d) →
      limiter w' !! key = limiter w !! key.
Proof.
  unfold authorizeLimitDep. munfold.
  destruct (authorize token security_scopes w) as [[d0|e] w0] eqn:Ha;
    [|discriminate].
  pose proof (authorize_world _ _ _ _ _ Ha) as ->. intros Hl.
  assert (d0 = d) as ->.
  { revert Hl. unfold authorize_limited, rate_limiter. munfold. simpl.
    case_bool_decide; [discriminate|]. by intros [= -> _]. }
  split; [reflexivity|].
  apply authorize_limited_world in Hl as (Hu & Hp & Hb & Hn & Hlim).
  repeat split; try done. intros key Hk.
  destruct Hlim as [->| ->]; [reflexivity|]. by rewrite lookup_insert_ne.
Qed.

(** X4. Subjects do not share a bucket of the limiter.  The key of a
    subject is the hex form of its id, which tells 128-bit ids apart: a
    guarded call of one subject, let through or refused, leaves the calls
    counted for every other subject as they were. *)
Theorem authorize_limited_isolated (d other : TokenDecode.t) (w w' : World)
    (r : result TokenDecode.t) :
  (TokenDecode.id d < 2 ^ 128)%N → (TokenDecode.id other < 2 ^ 128)%N →
  TokenDecode.id d ≠ TokenDecode.id other →
  authorize_limited d w = (r, w') →
  counted (UUID_hex (TokenDecode.id other)) w'
  = counted (UUID_hex (TokenDecode.id other)) w.
Proof.
  intros Hd Ho Hne Hl.
  assert (Hkey : UUID_hex (TokenDecode.id d) ≠ UUID_hex (TokenDecode.id other)).
  { intros Heq. by apply UUID_hex_inj in Heq. }
  apply authorize_limited_world in Hl as (_ & _ & _ & Hn & Hlim).
  unfold counted. rewrite Hn.
  destruct Hlim as [->| ->]; [reflexivity|]. by rewrite lookup_insert_ne.
Qed.

(** *** The authenticator *)

Lemma Authenticate_call_ok (self : Authenticate)
    (credentials : OAuth2PasswordRequestForm) (w w' : World) (u : User.t) :
  Authenticate_call self credentials w = (Ok u, w') →
  w' = w ∧ u ∈ users w ∧ User.email u = username credentials.
Proof.
  unfold Authenticate_call. munfold. unfold find.
  destruct (List.find _ (users w)) as [u0|] eqn:Hf; [|discriminate].
  apply find_email_some in Hf as [Hu He].
  destruct (check_password u0 _); [|discriminate].
  destruct (User.verified u0); [|discriminate].
  simpl. by intros [= <- <-].
Qed.

(** X5. What a subject returned by credential authentication guarantees.
    Whenever [Authenticate.__call__] returns a subject, it is a row of the
    user table under the email of the form, the password of the form
    checks against its stored hash, and it is verified; whenever it
    raises, the failure is [unauthorized_basic()] or the forbidden failure
    of an unverified subject.  The world is left as it is either way. *)
Theorem authenticate_sound (self : Authenticate)
    (credentials : OAuth2PasswordRequestForm) (w w' : World)
    (r : result User.t) :
  Authenticate_call self credentials w = (r, w') →
  w' = w
  ∧ match r with
    | Ok u =>
        u ∈ users w
        ∧ User.email u = username credentials
        ∧ check_password u (form_password credentials) = true
        ∧ User.verified u = true
    | Raise e =>
        e = unauthorized_basic
        ∨ e = forbidden "User not verified. Request reset password."
    end.
Proof.
  unfold Authenticate_call. munfold. unfold find.
  destruct (List.find _ (users w)) as [u|] eqn:Hf.
  - apply find_email_some in Hf as [Hu He].
    destruct (check_password u _) eqn:Hpw; simpl.
    + destruct (User.verified u) eqn:Hv; simpl; intros [= <- <-].
      * by repeat split.
      * split; [reflexivity|by right].
    + intros [= <- <-]. split; [reflexivity|by left].
  - simpl. intros [= <- <-]. split; [reflexivity|by left].
Qed.

Lemma find_by_id (l : list User.t) (u : User.t) :
  NoDup (User.id <$> l) → u ∈ l →
  List.find (λ x, bool_decide (User.id x = User.id u)) l = Some u.
Proof.
  induction l as [|a l IH]; intros Hnd Hu.
  - by apply elem_of_nil in Hu.
  - rewrite fmap_cons in Hnd. apply NoDup_cons in Hnd as [Hna Hnd].
    simpl. case_bool_decide as He.
    + apply elem_of_cons in Hu as [->|Hu]; [reflexivity|].
      exfalso. apply Hna. rewrite He. by apply list_elem_of_fmap_2.
    + apply elem_of_cons in Hu as [->|Hu]; [congruence|]. by apply IH.
Qed.

Lemma find_id_none (l : list User.t) (i : UUID) :
  (∀ u, u ∈ l → User.id u ≠ i) →
  List.find (λ x, bool_decide (User.id x = i)) l = None.
Proof.
  induction l as [|a l IH]; intros Hall; [reflexivity|].
  simpl. case_bool_decide as He.
  - exfalso. apply (Hall a); [left|exact He].
  - apply IH. intros u Hu. apply Hall. by right.
Qed.

Lemma find_id_some (l : list User.t) (i : UUID) (u : User.t) :
  List.find (λ x, bool_decide (User.id x = i)) l = Some u →
  u ∈ l ∧ User.id u = i.
Proof.
  intros Hf. apply find_some in Hf as [Hin He].
  apply bool_decide_eq_true in He. by rewrite list_elem_of_In.
Qed.

Lemma User_get_found (i : UUID) rel (w : World) (u : User.t) :
  NoDup (User.id <$> users w) → u ∈ users w → User.id u = i →
  User_get i rel w = (Ok u, w).
Proof.
  intros Hnd Hu <-. unfold User_get. by rewrite find_by_id.
Qed.

Lemma User_get_missing (i : UUID) rel (w : World) :
  (∀ u, u ∈ users w → User.id u ≠ i) →
  User_get i rel w = (Raise (HTTPError NotFound), w).
Proof. intros Hno. unfold User_get. by rewrite find_id_none. Qed.

(** X6. Token mode.  [Authenticate.from_token] returns a row of the user
    table whose id is the subject of the decoded token, and no other
    subject; when no row has this id it raises the not-found failure; with
    ids that identify their rows a subject is returned for its own token.
    The world is left as it is. *)
Theorem from_token_subject (self : Authenticate) (token : TokenDecode.t)
    (w : World) :
  (∀ r w', Authenticate_from_token self token w = (r, w') →
     w' = w
     ∧ match r with
       | Ok u => u ∈ users w ∧ User.id u = TokenDecode.id token
       | Raise e => e = HTTPError NotFound
                    ∧ ∀ u, u ∈ users w → User.id u ≠ TokenDecode.id token
       end)
  ∧ (NoDup (User.id <$> users w) →
     ∀ u, u ∈ users w → User.id u = TokenDecode.id token →
       Authenticate_from_token self token w = (Ok u, w)).
Proof.
  split.
  - intros r w'. unfold Authenticate_from_token, User_get. munfold.
    destruct (List.find _ (users w)) as [u|] eqn:Hf; intros [= <- <-].
    + split; [reflexivity|]. by apply find_id_some in Hf.
    + split; [reflexivity|]. split; [reflexivity|].
      intros u Hu He. apply list_elem_of_In in Hu.
      apply (find_none _ _ Hf) in Hu. by apply bool_decide_eq_false in Hu.
  - intros Hnd u Hu He. unfold Authenticate_from_token. munfold.
    by rewrite (User_get_found _ _ _ u Hnd Hu He).
Qed.

(** X7. Log in, then load.  A token issued by [Authenticate.to_token],
    presented before it expires to a route behind [authorizeLoadDep] that
    declares no scope, loads the subject that logged in, as long as the
    user table is the same and its ids identify their rows. *)
Theorem login_then_load (credentials : OAuth2PasswordRequestForm)
    (w w1 w2 : World) (enc : TokenEncode.t) :
  NoDup (User.id <$> users w) →
  Authenticate_to_token credentials w = (Ok enc, w1) →
  users w2 = users w →
  now w2 ≤ now w + ACCESS_TOKEN_EXPIRE config →
  ∃ user,
    Authenticate_call (Authenticate_init false) credentials w = (Ok user, w)
    ∧ authorizeLoadDep (TokenEncode.access_token enc) [] w2 = (Ok user, w2).
Proof.
  intros Hnd Ht Hus Hexp. revert Ht. unfold Authenticate_to_token. munfold.
  destruct (Authenticate_call _ credentials w) as [[user|e] w0] eqn:Hc;
    [|discriminate].
  apply Authenticate_call_ok in Hc as Hs. destruct Hs as (-> & Hu & _).
  unfold Token_encode. intros [= <- <-]. exists user.
  split; [reflexivity|]. simpl.
  unfold authorizeLoadDep, authorize. munfold. simpl.
  erewrite Token_decode_ok;
    [|apply verify_signature_encode|exact Hexp|by left].
  simpl. unfold Authenticate_from_token. munfold.
  rewrite (User_get_found _ _ w2 user); [reflexivity| | |reflexivity].
  - by rewrite Hus.
  - by rewrite Hus.
Qed.

(** *** Issued tokens against the guards of the routes *)

Lemma Token_decode_forbidden (token : token_str) (scope : list Role.t)
    (w : World) (c : Claims) :
  verify_signature token = Some c → now w ≤ exp c →
  scope ≠ [] → (∀ r, r ∈ scope → r ∉ scopes c) →
  Token_decode token scope w = (Raise (HTTPError Forbidden), w).
Proof.
  intros Hsig Hexp Hne Hdis. unfold Token_decode. rewrite Hsig.
  destruct (Z.ltb_spec (exp c) (now w)); [lia|].
  destruct scope as [|r0 scope]; [done|].
  apply intersects_false in Hdis. by rewrite Hdis.
Qed.

Lemma to_token_issues (credentials : OAuth2PasswordRequestForm) (w w1 : World)
    (enc : TokenEncode.t) :
  Authenticate_to_token credentials w = (Ok enc, w1) →
  ∃ user,
    Authenticate_call (Authenticate_init false) credentials w = (Ok user, w)
    ∧ TokenEncode.access_token enc
      = (let c := {| sub := User.id user; scopes := User.scope user;
                     exp := now w + ACCESS_TOKEN_EXPIRE config |} in
         Jws c (sign (SECRET_KEY config) c)).
Proof.
  unfold Authenticate_to_token. munfold.
  destruct (Authenticate_call _ credentials w) as [[user|e] w0] eqn:Hc;
    [|discriminate].
  apply Authenticate_call_ok in Hc as Hs. destruct Hs as (-> & _).
  unfold Token_encode. intros [= <- <-]. by exists user.
Qed.

(** X8. An issued token opens no route whose scopes the subject does not
    hold.  When [Authenticate.to_token] issues a token to a subject and a
    route declares roles none of which is among the subject's stored
    scopes, [authorize] refuses the token with the forbidden failure, at
    any time before the token expires; so do the guard of the admin router
    for a subject without [ADMIN] and [resetLoadDep] for a subject without
    [RESET]. *)
Theorem issued_token_confined (credentials : OAuth2PasswordRequestForm)
    (w w1 w2 : World) (enc : TokenEncode.t) (user : User.t) :
  Authenticate_to_token credentials w = (Ok enc, w1) →
  Authenticate_call (Authenticate_init false) credentials w = (Ok user, w) →
  now w2 ≤ now w + ACCESS_TOKEN_EXPIRE config →
  (∀ roles, roles ≠ [] → (∀ r, r ∈ roles → r ∉ User.scope user) →
     authorize (TokenEncode.access_token enc) (Role.value <$> roles) w2
     = (Raise (HTTPError Forbidden), w2))
  ∧ (Role.ADMIN ∉ User.scope user →
       admin_guard (TokenEncode.access_token enc) w2
       = (Raise (HTTPError Forbidden), w2))
  ∧ (Role.RESET ∉ User.scope user →
       resetLoadDep (TokenEncode.access_token enc) w2
       = (Raise (HTTPError Forbidden), w2)).
Proof.
  intros Ht Hc Hexp.
  destruct (to_token_issues _ _ _ _ Ht) as (user' & Hc' & ->).
  rewrite Hc in Hc'. injection Hc' as <-. simpl.
  set (c := {| sub := User.id user; scopes := User.scope user;
               exp := now w + ACCESS_TOKEN_EXPIRE config |}).
  assert (Hgen : ∀ roles, roles ≠ [] →
            (∀ r, r ∈ roles → r ∉ User.scope user) →
            authorize (Jws c (sign (SECRET_KEY config) c))
              (Role.value <$> roles) w2
            = (Raise (HTTPError Forbidden), w2)).
  { intros roles Hne Hdis. unfold authorize. munfold.
    rewrite traverse_Role_call. simpl.
    rewrite (Token_decode_forbidden _ roles w2 c);
      [reflexivity|apply verify_signature_encode|exact Hexp|exact Hne
      |exact Hdis]. }
  split; [exact Hgen|]. split.
  - intros Hno. unfold admin_guard. apply (Hgen [Role.ADMIN]); [done|].
    intros r Hr. apply list_elem_of_singleton in Hr as ->. exact Hno.
  - intros Hno. unfold resetLoadDep. munfold.
    change [Role.value Role.RESET] with (Role.value <$> [Role.RESET]).
    rewrite (Hgen [Role.RESET]); [reflexivity|done|].
    intros r Hr. apply list_elem_of_singleton in Hr as ->. exact Hno.
Qed.

(** *** The admin router *)

Lemma bind_mret {A} (m : M A) (w : World) : (x ← m; mret x) w = m w.
Proof. munfold. by destruct (m w) as [[a|e] w']. Qed.

(** X9. Every route of the admin router runs behind its guard.  When
    [authorize] with the [ADMIN] scope raises for the bearer token, each of
    the five routes raises that failure and the world is left as it is: no
    user is created, listed, read, deleted or updated.  When the guard
    yields a token, each route does what its dependency does. *)
Theorem admin_routes_guarded (bearer : token_str) (w : World) :
  (∀ e w', admin_guard bearer w = (Raise e, w') →
     (∀ user_in send_email,
        admin_create_user bearer user_in send_email w = (Raise e, w))
     ∧ admin_get_users bearer w = (Raise e, w)
     ∧ (∀ id, admin_get_user bearer id w = (Raise e, w))
     ∧ (∀ id, admin_delete_user bearer id w = (Raise e, w))
     ∧ (∀ id user_update,
          admin_update_user bearer id user_update w = (Raise e, w)))
  ∧ (∀ d w', admin_guard bearer w = (Ok d, w') →
       (∀ user_in send_email,
          admin_create_user bearer user_in send_email w
          = create_user_default user_in send_email w)
       ∧ admin_get_users bearer w = get_users w
       ∧ (∀ id, admin_get_user bearer id w = get_user id w)
       ∧ (∀ id, admin_delete_user bearer id w = delete_user_route id w)
       ∧ (∀ id user_update,
            admin_update_user bearer id user_update w
            = update_user_route id user_update w)).
Proof.
  split.
  - intros e w' Hg. pose proof (authorize_world _ _ _ _ _ Hg) as ->.
    unfold admin_create_user, admin_get_users, admin_get_user,
      admin_delete_user, admin_update_user. munfold. rewrite Hg.
    by repeat split.
  - intros d w' Hg. pose proof (authorize_world _ _ _ _ _ Hg) as ->.
    unfold admin_create_user, admin_get_users, admin_get_user,
      admin_delete_user, admin_update_user.
    repeat split; intros; unfold mbind at 1, M_bind at 1; rewrite Hg;
      try apply bind_mret; reflexivity.
Qed.

(** X10. The bootstrapped admin can administer.  When no subject has the
    admin email, the hasher verifies the configured password against its
    own hash and the token lifetime is not negative: [create_admin_user]
    creates the admin, logging in with the configured email and password
    then issues a token, and this token passes the guard of the admin
    router as the admin's id with the [ADMIN] scope. *)
Theorem bootstrap_admin_can_administer (w : World) (asked : list string) :
  (∀ u, u ∈ users w → User.email u ≠ ADMIN_EMAIL config) →
  verify_password (ADMIN_PASSWORD config)
    (get_password_hash (ADMIN_PASSWORD config)) = true →
  0 ≤ ACCESS_TOKEN_EXPIRE config →
  ∃ a w1 enc,
    create_admin_user w = (Ok a, w1)
    ∧ Authenticate_to_token
        {| username := ADMIN_EMAIL config;
           form_password := ADMIN_PASSWORD config;
           form_scopes := asked |} w1
      = (Ok enc, w1)
    ∧ admin_guard (TokenEncode.access_token enc) w1
      = (Ok (TokenDecode.Build (User.id a) [Role.ADMIN]), w1)
    ∧ admin_get_users (TokenEncode.access_token enc) w1
      = (Ok (users w ++ [a]), w1).
Proof.
  intros Hnone Hpw Hexp.
  pose proof (find_email_none _ _ Hnone) as Hf.
  unfold create_admin_user. munfold. unfold find. rewrite Hf. simpl.
  set (a := User.Build (uuid4 (draws w)) "admin" (ADMIN_EMAIL config)
              (get_password_hash (ADMIN_PASSWORD config)) true [Role.ADMIN]).
  set (w1 := emit (Saved a) (with_users (users (with_draws (S (draws w)) w)
                                           ++ [a]) (with_draws (S (draws w)) w))).
  assert (Hfind : List.find (λ u, String.eqb (User.email u) (ADMIN_EMAIL config))
                    (users w1) = Some a).
  { simpl. apply find_app_miss; [exact Hf|]. simpl. apply String.eqb_refl. }
  assert (Hlogin : ∀ self,
            Authenticate_call self
              {| username := ADMIN_EMAIL config;
                 form_password := ADMIN_PASSWORD config;
                 form_scopes := asked |} w1 = (Ok a, w1)).
  { intros self. unfold Authenticate_call. munfold. unfold find. simpl.
    simpl in Hfind. rewrite Hfind. unfold check_password. simpl.
    by rewrite Hpw. }
  set (c := {| sub := User.id a; scopes := User.scope a;
               exp := now w1 + ACCESS_TOKEN_EXPIRE config |}).
  assert (Hguard : admin_guard (Jws c (sign (SECRET_KEY config) c)) w1
                   = (Ok (TokenDecode.Build (User.id a) [Role.ADMIN]), w1)).
  { unfold admin_guard, authorize. munfold. simpl.
    rewrite (Token_decode_ok _ [Role.ADMIN] w1 c);
      [reflexivity|apply verify_signature_encode| |].
    - simpl. lia.
    - right. exists Role.ADMIN. simpl. split; apply elem_of_cons; by left. }
  exists a, w1, (TokenEncode.Build (Jws c (sign (SECRET_KEY config) c)) "bearer").
  split; [reflexivity|]. split.
  - unfold Authenticate_to_token. munfold. by rewrite Hlogin.
  - split; [exact Hguard|]. simpl.
    unfold admin_get_users. munfold. by rewrite Hguard.
Qed.

(** *** User functions behind [get_user] *)

Lemma filter_other_ids (l : list User.t) (i : UUID) (r : User.t) :
  r ∈ List.filter (λ x, negb (bool_decide (User.id x = i))) l
  ↔ r ∈ l ∧ User.id r ≠ i.
Proof.
  rewrite !list_elem_of_In, filter_In, negb_true_iff, bool_decide_eq_false.
  reflexivity.
Qed.

(** X11. Deleting a user by id.  When no row has the id,
    [delete_user] behind [get_user] raises the not-found failure and the
    world is left as it is.  When a row has it, the route returns, the
    rows left are exactly the rows with another id, and reading the id
    afterwards raises the not-found failure. *)
Theorem delete_user_route_effect (id : UUID) (w : World) :
  ((∀ u, u ∈ users w → User.id u ≠ id) →
     delete_user_route id w = (Raise (HTTPError NotFound), w))
  ∧ ((∃ u, u ∈ users w ∧ User.id u = id) →
       ∃ w',
         delete_user_route id w = (Ok tt, w')
         ∧ (∀ r, r ∈ users w' ↔ r ∈ users w ∧ User.id r ≠ id)
         ∧ get_user id w' = (Raise (HTTPError NotFound), w')).
Proof.
  split.
  - intros Hno. unfold delete_user_route, get_user. munfold.
    by rewrite User_get_missing.
  - intros (u & Hu & He).
    unfold delete_user_route, get_user, User_get. munfold.
    destruct (List.find (λ x, bool_decide (User.id x = id)) (users w))
      as [v|] eqn:Hf.
    + apply find_id_some in Hf as [Hv Hvid].
      eexists. split; [reflexivity|]. simpl. rewrite Hvid. split.
      * intros r. apply filter_other_ids.
      * rewrite find_id_none; [reflexivity|].
        intros r Hr. by apply filter_other_ids in Hr as [_ ?].
    + exfalso. apply list_elem_of_In in Hu.
      apply (find_none _ _ Hf) in Hu. by apply bool_decide_eq_false in Hu.
Qed.

Lemma replace_row_self (l : list User.t) (u : User.t) :
  NoDup (User.id <$> l) → u ∈ l →
  map (λ r, if bool_decide (User.id r = User.id u) then u else r) l = l.
Proof.
  intros Hnd Hu. rewrite <- (map_id l) at 2. apply map_ext_in.
  intros r Hr. case_bool_decide as He; [|reflexivity].
  apply list_elem_of_In in Hr. symmetry.
  by apply (key_identifies User.id l).
Qed.

(** X12. Updating a user by id, at the edges.  When no row has the id,
    [update_user] behind [get_user] raises the not-found failure and the
    world is left as it is.  When the payload provides no field, over a
    table whose ids identify their rows, the stored user is returned as it
    is and the table is unchanged. *)
Theorem update_user_route_edges (id : UUID) (w : World) :
  (∀ user_update, (∀ u, u ∈ users w → User.id u ≠ id) →
     update_user_route id user_update w = (Raise (HTTPError NotFound), w))
  ∧ (NoDup (User.id <$> users w) →
     ∀ u, u ∈ users w → User.id u = id →
       ∃ w',
         update_user_route id (UserUpdate.Build None None None None None) w
         = (Ok u, w')
         ∧ users w' = users w ∧ posts w' = posts w ∧ bt w' = bt w).
Proof.
  split.
  - intros user_update Hno. unfold update_user_route, get_user. munfold.
    by rewrite User_get_missing.
  - intros Hnd u Hu He. unfold update_user_route, get_user. munfold.
    rewrite (User_get_found _ _ _ u Hnd Hu He).
    eexists. split; [reflexivity|]. simpl.
    split; [by apply replace_row_self|done].
Qed.

Lemma setattr_id (u : User.t) (kw : kwarg) : User.id (setattr u kw) = User.id u.
Proof. by destruct kw. Qed.

Lemma foldl_setattr_id (kwargs : list kwarg) (u : User.t) :
  User.id (foldl setattr u kwargs) = User.id u.
Proof.
  revert u. induction kwargs as [|kw l IH]; intros u; [reflexivity|].
  simpl. by rewrite IH, setattr_id.
Qed.

Lemma find_replaced (l : list User.t) (u u' : User.t) :
  u ∈ l → User.id u' = User.id u →
  List.find (λ x, bool_decide (User.id x = User.id u))
    (map (λ r, if bool_decide (User.id r = User.id u) then u' else r) l)
  = Some u'.
Proof.
  intros Hu Hid. induction l as [|a l IH]; [by apply elem_of_nil in Hu|].
  simpl. destruct (decide (User.id a = User.id u)) as [Ha|Ha].
  - rewrite (bool_decide_eq_true_2 _ Ha).
    by rewrite (bool_decide_eq_true_2 _ Hid).
  - rewrite (bool_decide_eq_false_2 _ Ha).
    rewrite (bool_decide_eq_false_2 _ Ha).
    apply IH. apply elem_of_cons in Hu as [->|Hu]; [done|exact Hu].
Qed.

(** X17. An update can be read back.  For a user of the table and any
    payload, [update_user] returns a user with the same id, and [get_user]
    with that id afterwards returns the user that [update_user] returned;
    the number of rows is unchanged. *)
Theorem update_user_then_get (user : User.t) (user_update : UserUpdate.t)
    (w w' : World) (u' : User.t) :
  user ∈ users w →
  update_user user user_update w = (Ok u', w') →
  User.id u' = User.id user
  ∧ get_user (User.id user) w' = (Ok u', w')
  ∧ length (users w') = length (users w).
Proof.
  intros Hu. unfold update_user, User_update. intros [= <- <-].
  pose proof (foldl_setattr_id (model_dump_exclude_none user_update) user)
    as Hid.
  split; [exact Hid|]. split.
  - unfold get_user, User_get. simpl. by rewrite find_replaced.
  - simpl. apply length_map.
Qed.

(** *** Registration *)

Lemma create_user_ok (user_in : UserIn.t) (send_email : bool) (w w1 : World)
    (u : User.t) :
  create_user user_in send_email w = (Ok u, w1) →
  (∀ v, v ∈ users w → User.email v ≠ UserIn.email user_in)
  ∧ users w1 = users w ++ [u]
  ∧ User.email u = UserIn.email user_in
  ∧ User.id u = uuid4 (draws w).
Proof.
  destruct (email_taken_or_free (users w) (UserIn.email user_in))
    as [Hex|Hnone].
  - by rewrite (create_user_taken _ _ _ Hex).
  - unfold create_user. munfold. unfold find.
    rewrite (find_email_none _ _ Hnone). simpl.
    destruct send_email; simpl; by intros [= <- <-].
Qed.

(** X13. An email registers once.  After [create_user] has returned, a
    second [create_user] with the same email, whatever the rest of its
    payload and its [send_email], raises the conflict failure and leaves
    the world as the first call left it. *)
Theorem create_user_twice (user_in again : UserIn.t) (send_email send_again : bool)
    (w w1 : World) (u : User.t) :
  create_user user_in send_email w = (Ok u, w1) →
  UserIn.email again = UserIn.email user_in →
  create_user again send_again w1
  = (Raise (conflict "User already exists"), w1).
Proof.
  intros Hc He. apply create_user_ok in Hc as (_ & Hus & Hem & _).
  apply create_user_taken. exists u. split; [|congruence].
  rewrite Hus. apply elem_of_app. right. by apply list_elem_of_singleton.
Qed.

(** X14. A registered user can be read back.  When the identifier the
    generator draws is not the id of a row, the user [create_user] returns
    carries that identifier, [get_user] with it returns that user,
    [get_users] lists the former rows followed by it, and
    [Authenticate.from_token] loads it for a token of this subject. *)
Theorem create_user_then_get (user_in : UserIn.t) (send_email : bool)
    (w w1 : World) (u : User.t) :
  (∀ v, v ∈ users w → User.id v ≠ uuid4 (draws w)) →
  create_user user_in send_email w = (Ok u, w1) →
  User.id u = uuid4 (draws w)
  ∧ get_user (User.id u) w1 = (Ok u, w1)
  ∧ get_users w1 = (Ok (users w ++ [u]), w1)
  ∧ (∀ scope,
       Authenticate_from_token (Authenticate_init false)
         (TokenDecode.Build (User.id u) scope) w1
       = (Ok u, w1)).
Proof.
  intros Hfresh Hc. apply create_user_ok in Hc as (_ & Hus & _ & Hid).
  assert (Hget : ∀ rel, User_get (User.id u) rel w1 = (Ok u, w1)).
  { intros rel. unfold User_get. rewrite Hus.
    rewrite (find_app_miss _ _ u); [reflexivity| |by apply bool_decide_eq_true].
    apply find_id_none. rewrite Hid. exact Hfresh. }
  split; [exact Hid|]. split; [apply Hget|]. split.
  - unfold get_users, User_all, gets. by rewrite Hus.
  - intros scope. unfold Authenticate_from_token. munfold. simpl.
    by rewrite Hget.
Qed.

(** *** Posts *)

(** X15. The owner loads the post.  Over a post table whose ids identify
    their rows, [load_post] and [load_post_limited] return a post of the
    table when asked for its id with a token of its owner, and leave the
    world as it is. *)
Theorem load_post_owner (w : World) (token : TokenDecode.t) (p : Post.t) :
  NoDup (Post.id <$> posts w) →
  p ∈ posts w → Post.user_id p = TokenDecode.id token →
  load_post (Post.id p) token w = (Ok (Some p), w)
  ∧ load_post_limited (Post.id p) token w = (Ok (Some p), w).
Proof.
  intros Hnd Hp Hown.
  assert (Hf : List.find (owned_filter (Post.id p) (TokenDecode.id token))
                 (posts w) = Some p).
  { destruct (List.find _ (posts w)) as [q|] eqn:Hf.
    - apply find_some in Hf as [Hq Hfq].
      apply owned_filter_true in Hfq as [Hid _].
      f_equal. apply list_elem_of_In in Hq.
      by apply (key_identifies Post.id (posts w)).
    - exfalso. apply list_elem_of_In in Hp.
      apply (find_none _ _ Hf) in Hp.
      assert (owned_filter (Post.id p) (TokenDecode.id token) p = true)
        by by apply owned_filter_true.
      congruence. }
  split; by apply find_hit.
Qed.

Lemma authorize_ok (token : token_str) (security_scopes : list string)
    (w w' : World) (d : TokenDecode.t) :
  authorize token security_scopes w = (Ok d, w') →
  w' = w
  ∧ ∃ c, verify_signature token = Some c
         ∧ d = TokenDecode.Build (sub c) (scopes c).
Proof.
  intros Ha. pose proof (authorize_world _ _ _ _ _ Ha) as ->.
  split; [reflexivity|]. revert Ha. unfold authorize. munfold.
  destruct (traverse Role.call security_scopes) as [roles|e]; [|discriminate].
  unfold Token_decode. destruct (verify_signature token) as [c|];
    [|discriminate].
  destruct (exp c <? now w); [discriminate|]. exists c.
  split; [reflexivity|]. revert Ha. destruct roles; [by intros [= <-]|].
  destruct (intersects _ _); [by intros [= <-]|discriminate].
Qed.

(** X16. Log in, then load a post.  Whatever post a route returns behind
    [authorizeDep] or [authorizeLimitDep], for a token that
    [Authenticate.to_token] issued and for any post id and declared
    scopes, is a post of the table with that id owned by the subject that
    logged in. *)
Theorem issued_token_loads_own_posts
    (credentials : OAuth2PasswordRequestForm) (w w1 w2 w' : World)
    (enc : TokenEncode.t) (user : User.t) (post_id : UUID)
    (security_scopes : list string) (r : option Post.t) :
  Authenticate_to_token credentials w = (Ok enc, w1) →
  Authenticate_call (Authenticate_init false) credentials w = (Ok user, w) →
  load_post_route post_id (TokenEncode.access_token enc) security_scopes w2
  = (Ok r, w')
  ∨ load_post_limited_route post_id (TokenEncode.access_token enc)
      security_scopes w2
    = (Ok r, w') →
  ∃ q, r = Some q ∧ q ∈ posts w2 ∧ Post.id q = post_id
       ∧ Post.user_id q = User.id user.
Proof.
  intros Ht Hc Hroute.
  destruct (to_token_issues _ _ _ _ Ht) as (user' & Hc' & Htok).
  rewrite Hc in Hc'. injection Hc' as <-.
  assert (Hsub : ∀ d w3 w4,
            authorize (TokenEncode.access_token enc) security_scopes w3
            = (Ok d, w4) → w4 = w3 ∧ TokenDecode.id d = User.id user).
  { intros d w3 w4 Ha. apply authorize_ok in Ha as (-> & c & Hv & ->).
    split; [reflexivity|]. rewrite Htok in Hv. simpl in Hv.
    rewrite String.eqb_refl in Hv. by injection Hv as <-. }
  destruct Hroute as [Hr|Hr].
  - revert Hr. unfold load_post_route, authorizeDep. munfold.
    destruct (authorize _ security_scopes w2) as [[d|e] w3] eqn:Ha;
      [|discriminate].
    apply Hsub in Ha as [-> Hid]. intros Hl.
    apply load_post_hit in Hl. by rewrite Hid in Hl.
  - revert Hr. unfold load_post_limited_route, authorizeLimitDep. munfold.
    destruct (authorize _ security_scopes w2) as [[d|e] w3] eqn:Ha;
      [|discriminate].
    apply Hsub in Ha as [-> Hid].
    destruct (authorize_limited d w2) as [[d'|e] w3] eqn:Hl; [|discriminate].
    assert (d' = d) as ->.
    { revert Hl. unfold authorize_limited, rate_limiter. munfold. simpl.
      case_bool_decide; [discriminate|]. by intros [= -> _]. }
    apply authorize_limited_world in Hl as (_ & Hp & _).
    change (load_post_limited post_id d w3) with (load_post post_id d w3).
    intros Hlp. apply load_post_hit in Hlp. by rewrite Hid, Hp in Hlp.
Qed.

End Composition.

Lemma authorize_unknown_scope_witness :
  ∃ v, authorize (env := demo_env) (TokenEncode.access_token alice_issued)
         ["user"; "root"] demo_world
       = (Raise (ValueError v), demo_world)
       ∧ v ∈ ["user"; "root"] ∧ ∀ r, Role.value r ≠ v.
Proof.
  apply (authorize_unknown_scope (env := demo_env) _ ["user"; "root"]
           demo_world "root").
  - apply (bool_decide_unpack _). vm_compute. exact I.
  - intros r. destruct r; discriminate.
Defined.

Lemma authorize_sound_witness :
  demo_world = demo_world
  ∧ ∃ roles c,
      ["user"] = Role.value <$> roles
      ∧ verify_signature (env := demo_env)
          (TokenEncode.access_token alice_issued) = Some c
      ∧ now demo_world ≤ exp c
      ∧ alice_token = TokenDecode.Build (sub c) (scopes c)
      ∧ (roles = [] ∨ ∃ r, r ∈ roles ∧ r ∈ TokenDecode.scope alice_token).
Proof.
  apply (authorize_sound (env := demo_env)
           (TokenEncode.access_token alice_issued) ["user"] demo_world
           demo_world alice_token).
  reflexivity.
Defined.

Lemma authorizeLimitDep_refines_witness :
  authorize (env := demo_env) (TokenEncode.access_token alice_issued)
    ["user"] demo_world
  = (Ok alice_token, demo_world).
Proof.
  refine (proj1 (authorizeLimitDep_refines (env := demo_env)
                   (TokenEncode.access_token alice_issued) ["user"]
                   demo_world _ alice_token eq_refl)).
Defined.

Lemma authorize_limited_isolated_witness :
  counted (env := demo_env) (UUID_hex 2%N)
    (authorize_limited (env := demo_env) alice_token busy_world).2
  = counted (env := demo_env) (UUID_hex 2%N) busy_world.
Proof.
  apply (authorize_limited_isolated (env := demo_env) alice_token
           (TokenDecode.Build 2%N [Role.USER]) busy_world _
           (authorize_limited (env := demo_env) alice_token busy_world).1).
  - reflexivity.
  - reflexivity.
  - discriminate.
  - apply surjective_pairing.
Defined.

Lemma authenticate_sound_witness :
  demo_world = demo_world
  ∧ alice ∈ users demo_world
  ∧ User.email alice = username alice_form
  ∧ check_password (env := demo_env) alice (form_password alice_form) = true
  ∧ User.verified alice = true.
Proof.
  apply (authenticate_sound (env := demo_env) (Authenticate_init false)
           alice_form demo_world demo_world (Ok alice)).
  reflexivity.
Defined.

Lemma from_token_subject_witness :
  Authenticate_from_token (Authenticate_init false) alice_token demo_world
  = (Ok alice, demo_world).
Proof.
  refine (proj2 (from_token_subject (Authenticate_init false) alice_token
                   demo_world) _ alice _ eq_refl).
  - apply (bool_decide_unpack _). vm_compute. exact I.
  - apply (bool_decide_unpack _). vm_compute. exact I.
Defined.

Lemma login_then_load_witness :
  ∃ user,
    Authenticate_call (env := demo_env) (Authenticate_init false) alice_form
      demo_world
    = (Ok user, demo_world)
    ∧ authorizeLoadDep (env := demo_env)
        (TokenEncode.access_token alice_issued) [] demo_world
      = (Ok user, demo_world).
Proof.
  apply (login_then_load (env := demo_env) alice_form demo_world demo_world
           demo_world alice_issued).
  - apply (bool_decide_unpack _). vm_compute. exact I.
  - reflexivity.
  - reflexivity.
  - vm_compute. discriminate.
Defined.

Lemma issued_token_confined_witness :
  admin_guard (env := demo_env) (TokenEncode.access_token alice_issued)
    demo_world
  = (Raise (HTTPError Forbidden), demo_world).
Proof.
  refine (proj1 (proj2 (issued_token_confined (env := demo_env) alice_form
                          demo_world demo_world demo_world alice_issued alice
                          eq_refl eq_refl _)) _).
  - vm_compute. discriminate.
  - apply (bool_decide_unpack _). vm_compute. exact I.
Defined.

Lemma admin_routes_guarded_witness :
  admin_delete_user (env := demo_env) (TokenEncode.access_token alice_issued)
    2%N demo_world
  = (Raise (HTTPError Forbidden), demo_world).
Proof.
  refine (proj1 (proj2 (proj2 (proj2
            (proj1 (admin_routes_guarded (env := demo_env)
                      (TokenEncode.access_token alice_issued) demo_world)
               (HTTPError Forbidden) demo_world eq_refl)))) 2%N).
Defined.

Lemma bootstrap_admin_can_administer_witness :
  ∃ a w1 enc,
    create_admin_user (env := demo_env) demo_world = (Ok a, w1)
    ∧ Authenticate_to_token (env := demo_env)
        {| username := "admin@example.org"; form_password := "change-me";
           form_scopes := [] |} w1
      = (Ok enc, w1)
    ∧ admin_guard (env := demo_env) (TokenEncode.access_token enc) w1
      = (Ok (TokenDecode.Build (User.id a) [Role.ADMIN]), w1)
    ∧ admin_get_users (env := demo_env) (TokenEncode.access_token enc) w1
      = (Ok (users demo_world ++ [a]), w1).
Proof.
  apply (bootstrap_admin_can_administer (env := demo_env) demo_world []).
  - apply (proj1 (Forall_forall _ _)).
    apply (bool_decide_unpack _). vm_compute. exact I.
  - reflexivity.
  - vm_compute. discriminate.
Defined.

Lemma delete_user_route_effect_witness :
  ∃ w',
    delete_user_route 2%N demo_world = (Ok tt, w')
    ∧ (∀ r, r ∈ users w' ↔ r ∈ users demo_world ∧ User.id r ≠ 2%N)
    ∧ get_user 2%N w' = (Raise (HTTPError NotFound), w').
Proof.
  apply (proj2 (delete_user_route_effect 2%N demo_world)).
  exists bob. split; [|reflexivity].
  apply (bool_decide_unpack _). vm_compute. exact I.
Defined.

Lemma update_user_route_edges_witness :
  ∃ w',
    update_user_route (env := demo_env) 1%N
      (UserUpdate.Build None None None None None) demo_world
    = (Ok alice, w')
    ∧ users w' = users demo_world ∧ posts w' = posts demo_world
    ∧ bt w' = bt demo_world.
Proof.
  refine (proj2 (update_user_route_edges (env := demo_env) 1%N demo_world)
            _ alice _ eq_refl).
  - apply (bool_decide_unpack _). vm_compute. exact I.
  - apply (bool_decide_unpack _). vm_compute. exact I.
Defined.

Lemma create_user_twice_witness :
  create_user (env := demo_env) carol_again_in false
    (create_user (env := demo_env) carol_in true demo_world).2
  = (Raise (conflict "User already exists"),
     (create_user (env := demo_env) carol_in true demo_world).2).
Proof.
  apply (create_user_twice (env := demo_env) carol_in carol_again_in true
           false demo_world _
           (User.Build 1000%N "carol" "carol@example.org" "hash:tea" false
              [Role.USER])).
  - reflexivity.
  - reflexivity.
Defined.

Lemma create_user_then_get_witness :
  get_user
    (User.id (User.Build 1000%N "carol" "carol@example.org" "hash:tea" false
                [Role.USER]))
    (create_user (env := demo_env) carol_in true demo_world).2
  = (Ok (User.Build 1000%N "carol" "carol@example.org" "hash:tea" false
           [Role.USER]),
     (create_user (env := demo_env) carol_in true demo_world).2).
Proof.
  refine (proj1 (proj2 (create_user_then_get (env := demo_env) carol_in true
                          demo_world _ _ _ eq_refl))).
  apply (proj1 (Forall_forall _ _)).
  apply (bool_decide_unpack _). vm_compute. exact I.
Defined.

Lemma load_post_owner_witness :
  load_post (Post.id alice_post) alice_token demo_world
  = (Ok (Some alice_post), demo_world)
  ∧ load_post_limited (Post.id alice_post) alice_token demo_world
    = (Ok (Some alice_post), demo_world).
Proof.
  apply (load_post_owner demo_world alice_token alice_post).
  - apply (bool_decide_unpack _). vm_compute. exact I.
  - apply (bool_decide_unpack _). vm_compute. exact I.
  - reflexivity.
Defined.

Lemma issued_token_loads_own_posts_witness :
  ∃ q, Some alice_post = Some q ∧ q ∈ posts demo_world ∧ Post.id q = 10%N
       ∧ Post.user_id q = User.id alice.
Proof.
  apply (issued_token_loads_own_posts (env := demo_env) alice_form demo_world
           demo_world demo_world demo_world alice_issued alice 10%N ["user"]
           (Some alice_post) eq_refl eq_refl).
  left. reflexivity.
Defined.

Lemma update_user_then_get_witness :
  User.id (User.Build 1%N "alice" "alice@example.org" "hash:wonderland" false
             [Role.USER])
  = User.id alice
  ∧ get_user (User.id alice)
      (update_user (env := demo_env) alice unverify demo_world).2
    = (Ok (User.Build 1%N "alice" "alice@example.org" "hash:wonderland" false
             [Role.USER]),
       (update_user (env := demo_env) alice unverify demo_world).2)
  ∧ length (users (update_user (env := demo_env) alice unverify demo_world).2)
    = length (users demo_world).
Proof.
  apply (update_user_then_get (env := demo_env) alice unverify demo_world).
  - apply (bool_decide_unpack _). vm_compute. exact I.
  - reflexivity.
Defined.
